(** * Schwarzian_action: the JT-gravity boundary pipeline

    A shallow embedding of [JT_Gravity/Schwarzian_action.py] and the
    properties of its guarded Schwarzian computation, of the right-hand side
    of its equations of motion and of its error behaviour.

    Numbers.  The program computes with NumPy float64 arrays.  A finite
    float is idealised as a real number ([R]), so rounding and overflow are
    outside the model.  What the model does keep is the one way in which the
    formulas of this program leave the finite numbers: a division by zero.
    NumPy does not raise there, it stores [inf] or [nan] in the array.  An
    array entry is therefore an [npfloat]: [Some r] for a finite value and
    [None] for [inf] or [nan].  Arrays are lists, and the whole-array
    arithmetic of NumPy is [map] and [map2].

    Where a statement depends on rounding, the lines concerned are also
    transcribed in binary64 (module [F64]) and evaluated there.

    Errors.  Python exceptions are the left summand of [result]. *)

From Stdlib Require Import Reals Lra Lia List String ZArith Bool.
From Stdlib Require Floats.
Import ListNotations.
Open Scope R_scope.

(** ** NumPy primitives used by the program *)

Module Np.

(** A float64 array entry: finite, or non-finite ([inf], [nan]). *)
Definition npfloat : Type := option R.

Definition finite (r : R) : npfloat := Some r.

Definition lift2 (op : R -> R -> R) (a b : npfloat) : npfloat :=
  match a, b with
  | Some x, Some y => Some (op x y)
  | _, _ => None
  end.

Definition add : npfloat -> npfloat -> npfloat := lift2 Rplus.
Definition sub : npfloat -> npfloat -> npfloat := lift2 Rminus.
Definition mul : npfloat -> npfloat -> npfloat := lift2 Rmult.

(** [a ** 2] *)
Definition sq (a : npfloat) : npfloat := mul a a.

(** [a / y] for a finite divisor [y]: a finite quotient when [y] is not
    zero, and [inf] or [nan] when it is. *)
Definition div (a : npfloat) (y : R) : npfloat :=
  match a with
  | Some x => if Req_dec_T y 0 then None else Some (x / y)
  | None => None
  end.

(** [np.clip(x, lo, None)]: the lower bound only, that is [maximum(x, lo)]. *)
Definition clip_lower (x lo : R) : R := Rmax x lo.

(** [np.sign]: -1, 0 or 1. *)
Definition sign (x : R) : R :=
  if Rlt_dec x 0 then -1 else if Rlt_dec 0 x then 1 else 0.

(** [np.where(c, a, b)] at one index. *)
Definition where_ (c : bool) (a b : R) : R := if c then a else b.

(** [a > b] at one index. *)
Definition gt (a b : R) : bool := if Rlt_dec b a then true else false.

(** Elementwise binary operation on two aligned arrays.  NumPy raises
    [ValueError] on arrays of different lengths (none of length 1); the
    elementwise expressions below are read on aligned arrays only. *)
Fixpoint map2 {A B C : Type} (f : A -> B -> C) (xs : list A) (ys : list B) : list C :=
  match xs, ys with
  | x :: xs', y :: ys' => f x y :: map2 f xs' ys'
  | _, _ => []
  end.

End Np.

Import Np.

(** ** Configuration (the [Config] dataclass and the global [config]) *)

Record Config : Type := mkConfig {
  C : R;
  delta : R;
  t_start : R;
  t_end : R;
  N : Z;
  epsilon : R;
  delta_T : R;
  omega_T : R
}.

(** [np.finfo(np.float64).eps] *)
Definition float64_eps : R := / 2 ^ 52.

(** [Config()] with the defaults of the dataclass. *)
Definition default_config : Config :=
  mkConfig 1 0.01 0 3 1000000 float64_eps 0.01 0.5.

(** ** Exceptions, solver results, plotted series *)

Inductive exn : Type :=
| RuntimeError (msg : string)   (* the one [raise] of the program, line 130 *)
| IndexError                    (* [a[0]] or [a[-1]] on an empty array *)
| ValueError (origin : string). (* raised by the argument checks of a library call *)

Definition result (A : Type) : Type := (exn + A)%type.

(** The ODE state [y = [f, f', f'', phi, phi']] and what the right-hand side
    returns for it; only the third component goes through a division. *)
Definition state : Type := (R * R * R * R * R)%type.
Definition deriv : Type := (R * R * npfloat * R * R)%type.

(** The fields of the object [solve_ivp] returns that the program reads. *)
Record OdeResult : Type := mkOdeResult {
  success : bool;
  message : string;
  y : list (list R)
}.

(** [sol.y[i]]: [solve_ivp] returns one row per state component, five for
    this system, so the index is in range for every result it returns. *)
Definition row (sol : OdeResult) (i : nat) : list R := nth i (y sol) [].

(** [a[0]] and [a[-1]]. *)
Definition first {A : Type} (a : list A) : option A := hd_error a.
Definition last_elt {A : Type} (a : list A) : option A := hd_error (rev a).

(** The ten arguments of [plot_solutions], in its order. *)
Record PlotSeries : Type := mkPlotSeries {
  plot_t_np : list R;
  plot_phi_initial : list R;
  plot_phi_evolved_from_f : list R;
  plot_S_initial : list npfloat;
  plot_S_evolved : list npfloat;
  plot_temperature : list R;
  plot_f_evolved : list R;
  plot_f_prime_evolved : list R;
  plot_phi_evolved : list R;
  plot_f_initial : list R
}.

(** ** The numerical kernels *)

(** [temperature_perturbation(t, delta_T, omega_T)] at one time. *)
Definition temperature_perturbation (t dT wT : R) : R :=
  1 + dT * sin (wT * t).

(** [np.linspace(start, stop, num)]: [num] evenly spaced samples, the last
    one [stop]; NumPy raises [ValueError] for a negative [num] and returns
    the empty array for [num = 0]. *)
Definition linspace (start stop : R) (num : Z) : result (list R) :=
  if (num <? 0)%Z then inl (ValueError "linspace")
  else
    let n := Z.to_nat num in
    let step := (stop - start) / INR (n - 1) in
    inr (map (fun i => start + INR i * step) (seq 0 n)).

(** ** The symbolic expressions of [compute_initial_perturbations]

    The SymPy expressions the program builds are products of constants,
    the symbol [t], [sin] and [cos]; [diff] is [sp.diff(e, t_sym)] and
    [lambdify] is the NumPy evaluator [sp.lambdify(t_sym, e)] at one
    sample. *)
Module Sym.

Inductive expr : Type :=
| Num (r : R)
| Symbol_t
| Add (a b : expr)
| Mul (a b : expr)
| Neg (a : expr)
| Sin (a : expr)
| Cos (a : expr).

Fixpoint diff (e : expr) : expr :=
  match e with
  | Num _ => Num 0
  | Symbol_t => Num 1
  | Add a b => Add (diff a) (diff b)
  | Mul a b => Add (Mul (diff a) b) (Mul a (diff b))
  | Neg a => Neg (diff a)
  | Sin a => Mul (Cos a) (diff a)
  | Cos a => Mul (Neg (Sin a)) (diff a)
  end.

Fixpoint lambdify (e : expr) (t : R) : R :=
  match e with
  | Num r => r
  | Symbol_t => t
  | Add a b => lambdify a t + lambdify b t
  | Mul a b => lambdify a t * lambdify b t
  | Neg a => - lambdify a t
  | Sin a => sin (lambdify a t)
  | Cos a => cos (lambdify a t)
  end.

End Sym.

(** ** The stages of a run

    [main] calls one function per stage, in this order.  A run is recorded
    as the list of the stages that returned, together with the exception
    that stopped it or the series handed to [plot_solutions]. *)
Inductive stage : Type :=
| Grid                 (* np.linspace, line 24 *)
| SymbolicDerivation   (* compute_initial_perturbations, line 27 *)
| SchwarzianInit       (* compute_initial_schwarzian, line 30 *)
| Interpolation        (* CubicSpline, line 35 *)
| Integration          (* solve_equations_of_motion, line 41 *)
| Reconstruction.      (* process_and_plot_solution, line 44 *)

Definition run (A : Type) : Type := (list stage * result A)%type.

Definition ret {A : Type} (a : A) : run A := ([], inr a).

Definition bind {A B : Type} (m : run A) (k : A -> run B) : run B :=
  match m with
  | (done, inl e) => (done, inl e)
  | (done, inr a) => let '(done', r) := k a in (done ++ done', r)
  end.

(** The call of stage [s]: the stage is recorded when the call returns. *)
Definition call {A : Type} (s : stage) (r : result A) : run A :=
  match r with
  | inl e => ([], inl e)
  | inr a => ([s], inr a)
  end.

(** A fallible step of [main] that is no stage of its own (indexing). *)
Definition lift {A : Type} (r : result A) : run A := ([], r).

Notation "x <- m ;; k" := (bind m (fun x => k))
  (at level 61, m at next level, right associativity).
Notation "' p <- m ;; k" := (bind m (fun x => let p := x in k))
  (at level 61, p pattern, m at next level, right associativity).

Definition index0 {A : Type} (a : list A) : result A :=
  match first a with
  | Some x => inr x
  | None => inl IndexError
  end.

Definition all_finite (ys : list npfloat) : option (list R) :=
  fold_right (fun y acc =>
                match y, acc with
                | Some r, Some rs => Some (r :: rs)
                | _, _ => None
                end) (Some []) ys.

Fixpoint strictly_increasing (xs : list R) : bool :=
  match xs with
  | x :: ((x' :: _) as rest) => gt x' x && strictly_increasing rest
  | _ => true
  end.

Section Pipeline.

(** The module-level [config] every function reads. *)
Variable config : Config.

(** Line 104 and line 120: [np.clip(f_prime, config.epsilon, None)]. *)
Definition f_prime_safe_clip (f_prime : R) : R :=
  clip_lower f_prime (epsilon config).

(** Line 143:
    [np.where(np.abs(x) > config.epsilon, x, np.sign(x) * config.epsilon)]. *)
Definition f_prime_safe_where (f_prime : R) : R :=
  where_ (gt (Rabs f_prime) (epsilon config))
        f_prime
        (sign f_prime * epsilon config).

(** Lines 105-106 and lines 144, 151, at one index:
    [ratio = f'' / safe] and [S = f''' / safe - 1.5 * ratio ** 2]. *)
Definition ratio_at (f_double_prime safe : R) : npfloat :=
  div (finite f_double_prime) safe.

Definition schwarzian_at (f_triple_prime : npfloat) (f_double_prime safe : R) : npfloat :=
  sub (div f_triple_prime safe)
      (mul (finite 1.5) (sq (ratio_at f_double_prime safe))).

(** [compute_initial_schwarzian], lines 84-108. *)
Definition compute_initial_schwarzian
    (t_np phi_initial phi_prime phi_double_prime phi_triple_prime : list R)
    : list R * list R * list R * list npfloat :=
  let f_initial := map2 Rplus t_np phi_initial in
  let f_prime_initial := map (fun p => 1 + p) phi_prime in
  let f_double_prime_initial := phi_double_prime in
  let f_triple_prime_initial := phi_triple_prime in
  let f_prime_safe := map f_prime_safe_clip f_prime_initial in
  let ratio := map2 ratio_at f_double_prime_initial f_prime_safe in
  let S_initial :=
    map2 sub
         (map2 div (map finite f_triple_prime_initial) f_prime_safe)
         (map (fun r => mul (finite 1.5) (sq r)) ratio) in
  (f_initial, f_prime_initial, f_double_prime_initial, S_initial).

(** The two guarded Schwarzian computations of the program on one triple
    of derivatives: lines 104-106 (initial profile) and lines 143-144, 151
    (evolved profile). *)
Definition schwarzian_initial_path
    (f_prime f_double_prime : R) (f_triple_prime : npfloat) : npfloat :=
  schwarzian_at f_triple_prime f_double_prime (f_prime_safe_clip f_prime).

Definition schwarzian_reconstruction_path
    (f_prime f_double_prime : R) (f_triple_prime : npfloat) : npfloat :=
  schwarzian_at f_triple_prime f_double_prime (f_prime_safe_where f_prime).

(** The initial Schwarzian at one grid point, lines 99-106. *)
Definition S_initial_at (phi_prime phi_double_prime phi_triple_prime : R) : npfloat :=
  let f_prime_initial := 1 + phi_prime in
  schwarzian_initial_path f_prime_initial phi_double_prime (finite phi_triple_prime).

(** Lines 114-118 and lines 146-148 at one time: the spline value times
    the temperature, [S_time_dependent]. *)
Definition S_time_dependent_at (S0_spline : R -> R) (t : R) : R :=
  S0_spline t * temperature_perturbation t (delta_T config) (omega_T config).

(** *** The equations of motion, lines 112-125 *)

(** [equations_of_motion(t, y)], the closure defined inside
    [solve_equations_of_motion]; [S0_spline] is the captured spline. *)
Definition equations_of_motion (S0_spline : R -> R) (t : R) (y : state) : deriv :=
  let '(f, f_prime, f_double_prime, phi, phi_prime) := y in
  let temperature := temperature_perturbation t (delta_T config) (omega_T config) in
  let S0_t := S0_spline t in
  let S_time_dependent := S0_t * temperature in
  let f_prime_safe := f_prime_safe_clip f_prime in
  let ratio := ratio_at f_double_prime f_prime_safe in
  let f_triple_prime :=
    add (mul (finite f_prime_safe)
             (add (finite S_time_dependent) (mul (finite 1.5) (sq ratio))))
        (finite (C config * phi_prime)) in
  let phi_double_prime := - C config * f_prime in
  (f_prime, f_double_prime, f_triple_prime, phi_prime, phi_double_prime).

(** *** Integration, lines 110-132 *)

(** [scipy.integrate.solve_ivp(fun, t_span, y0, method, t_eval, atol, rtol)].
    The integrator is a library: it either raises an exception of its own
    (SciPy raises [ValueError] when the right-hand side is not finite) or
    returns the result object, which reports a failed integration in its
    [success] flag and [message]. *)
Variable solve_ivp :
  (R -> state -> deriv) -> R * R -> state -> string -> list R -> R -> R -> result OdeResult.

Definition solver_failed_message (sol : OdeResult) : string :=
  ("Solver failed: " ++ message sol
     ++ ". Consider adjusting solver parameters or reviewing initial conditions.")%string.

(** [solve_equations_of_motion(t_np, initial_conditions, S0_spline)].
    [t_np[0]] and [t_np[-1]] raise [IndexError] on an empty array, and an
    exception of [solve_ivp] passes line 127 uncaught. *)
Definition solve_equations_of_motion
    (t_np : list R) (initial_conditions : state) (S0_spline : R -> R)
    : result OdeResult :=
  match first t_np, last_elt t_np with
  | Some t0, Some t1 =>
      match solve_ivp (equations_of_motion S0_spline) (t0, t1)
                      initial_conditions "Radau" t_np 1e-8 1e-8 with
      | inl e => inl e
      | inr sol =>
          if negb (success sol)
          then inl (RuntimeError (solver_failed_message sol))
          else inr sol
      end
  | _, _ => inl IndexError
  end.

(** *** Reconstruction, lines 134-155 *)

(** [process_and_plot_solution]: everything up to the call of
    [plot_solutions], whose ten arguments are the result. *)
Definition process_and_plot_solution
    (t_np : list R) (sol : OdeResult) (phi_initial : list R)
    (S_initial : list npfloat) (f_initial : list R) (S0_spline : R -> R)
    : PlotSeries :=
  let f_evolved := row sol 0 in
  let f_prime_evolved := row sol 1 in
  let f_double_prime_evolved := row sol 2 in
  let phi_evolved := row sol 3 in
  let phi_prime_evolved := row sol 4 in
  let f_prime_evolved_safe := map f_prime_safe_where f_prime_evolved in
  let ratio := map2 ratio_at f_double_prime_evolved f_prime_evolved_safe in
  let temperature :=
    map (fun t => temperature_perturbation t (delta_T config) (omega_T config)) t_np in
  let S0_t := map S0_spline t_np in
  let S_time_dependent := map2 Rmult S0_t temperature in
  let f_triple_prime_evolved :=
    map2 add
         (map2 mul (map finite f_prime_evolved_safe)
               (map2 add (map finite S_time_dependent)
                     (map (fun r => mul (finite 1.5) (sq r)) ratio)))
         (map (fun p => finite (C config * p)) phi_prime_evolved) in
  let S_evolved :=
    map2 sub
         (map2 div f_triple_prime_evolved f_prime_evolved_safe)
         (map (fun r => mul (finite 1.5) (sq r)) ratio) in
  let phi_evolved_from_f := map2 Rminus f_evolved t_np in
  mkPlotSeries t_np phi_initial phi_evolved_from_f S_initial S_evolved temperature
               f_evolved f_prime_evolved phi_evolved f_initial.

(** The reconstruction at one grid point, as the lines above compute it
    there: the rebuilt third derivative and the evolved Schwarzian. *)
Definition f_triple_prime_evolved_at
    (S0_t temperature f_prime f_double_prime phi_prime : R) : npfloat :=
  let safe := f_prime_safe_where f_prime in
  add (mul (finite safe)
           (add (finite (S0_t * temperature))
                (mul (finite 1.5) (sq (ratio_at f_double_prime safe)))))
      (finite (C config * phi_prime)).

Definition S_evolved_at
    (S0_t temperature f_prime f_double_prime phi_prime : R) : npfloat :=
  schwarzian_reconstruction_path f_prime f_double_prime
    (f_triple_prime_evolved_at S0_t temperature f_prime f_double_prime phi_prime).

(** *** Initial perturbations, lines 50-82 *)

Definition perturbations : Type :=
  (list R * list R * list R * list R * list R * list R)%type.

(** What SymPy and [lambdify] return when the expressions degenerate, that
    is when the grid span [t_np[-1] - t_np[0]] is zero (the frequency is
    then SymPy's complex infinity) or when [delta] is zero (the
    expressions collapse to constants).  Not modelled: a parameter. *)
Variable degenerate_perturbations : list R -> R -> result perturbations.

(** [compute_initial_perturbations(t_np, delta)]. *)
Definition compute_initial_perturbations (t_np : list R) (delta : R)
    : result perturbations :=
  match last_elt t_np, first t_np with
  | Some t_last, Some t_first =>
      if Req_dec_T (t_last - t_first) 0 then degenerate_perturbations t_np delta
      else if Req_dec_T delta 0 then degenerate_perturbations t_np delta
      else
        let t_sym := Sym.Symbol_t in
        let delta_sym := Sym.Num delta in
        let omega := Sym.Num (2 * PI / (t_last - t_first)) in
        let phi_sym := Sym.Mul delta_sym (Sym.Sin (Sym.Mul omega t_sym)) in
        let dilaton_sym := Sym.Mul delta_sym (Sym.Cos (Sym.Mul omega t_sym)) in
        let phi_prime_sym := Sym.diff phi_sym in
        let phi_double_prime_sym := Sym.diff phi_prime_sym in
        let phi_triple_prime_sym := Sym.diff phi_double_prime_sym in
        let dilaton_prime_sym := Sym.diff dilaton_sym in
        let phi_func := Sym.lambdify phi_sym in
        let phi_prime_func := Sym.lambdify phi_prime_sym in
        let phi_double_prime_func := Sym.lambdify phi_double_prime_sym in
        let phi_triple_prime_func := Sym.lambdify phi_triple_prime_sym in
        let dilaton_func := Sym.lambdify dilaton_sym in
        let dilaton_prime_func := Sym.lambdify dilaton_prime_sym in
        inr (map phi_func t_np, map phi_prime_func t_np,
             map phi_double_prime_func t_np, map phi_triple_prime_func t_np,
             map dilaton_func t_np, map dilaton_prime_func t_np)
  | _, _ => inl IndexError
  end.

(** *** Interpolation, line 35 *)

(** The natural cubic spline through the points [(x, y)], as a function of
    the query time.  Not modelled: a parameter. *)
Variable natural_cubic_spline : list R -> list R -> R -> R.

(** [CubicSpline(x, y, bc_type='natural')].  SciPy checks its arguments and
    raises [ValueError] unless there are at least two points, as many
    values as points, only finite values, and [x] is strictly increasing. *)
Definition CubicSpline (x : list R) (y : list npfloat) : result (R -> R) :=
  match all_finite y with
  | Some ys =>
      if (2 <=? List.length x)%nat && (List.length x =? List.length ys)%nat && strictly_increasing x
      then inr (natural_cubic_spline x ys)
      else inl (ValueError "CubicSpline")
  | None => inl (ValueError "CubicSpline")
  end.

(** *** [main], lines 22-44 *)

Definition main : run PlotSeries :=
  t_np <- call Grid (linspace (t_start config) (t_end config) (N config)) ;;
  '(phi_initial, phi_prime, phi_double_prime, phi_triple_prime,
    dilaton_initial, dilaton_prime_initial)
     <- call SymbolicDerivation (compute_initial_perturbations t_np (delta config)) ;;
  '(f_initial, f_prime_initial, f_double_prime_initial, S_initial)
     <- call SchwarzianInit
          (inr (compute_initial_schwarzian t_np phi_initial phi_prime
                                           phi_double_prime phi_triple_prime)) ;;
  S0_spline <- call Interpolation (CubicSpline t_np S_initial) ;;
  f0 <- lift (index0 f_initial) ;;
  f1 <- lift (index0 f_prime_initial) ;;
  f2 <- lift (index0 f_double_prime_initial) ;;
  d0 <- lift (index0 dilaton_initial) ;;
  d1 <- lift (index0 dilaton_prime_initial) ;;
  let initial_conditions := (f0, f1, f2, d0, d1) in
  sol <- call Integration (solve_equations_of_motion t_np initial_conditions S0_spline) ;;
  call Reconstruction
       (inr (process_and_plot_solution t_np sol phi_initial S_initial f_initial S0_spline)).

End Pipeline.

(** ** What the specification says of the guard *)

(** A sign-preserving clamp away from zero, in the words of the
    specification: a value whose magnitude exceeds [eps] is kept, a value
    within [eps] of zero becomes [eps] or [- eps], and the result never has
    the sign opposite to the value's. *)
Definition sign_preserving_clamp (eps x safe : R) : Prop :=
  (eps < Rabs x -> safe = x)
  /\ (Rabs x <= eps -> safe = eps \/ safe = - eps)
  /\ (x < 0 -> safe < 0)
  /\ (0 < x -> 0 < safe).

(** The lower clamp [max(x, eps)]. *)
Definition lower_clamp (eps x safe : R) : Prop :=
  (eps <= x -> safe = x) /\ (x < eps -> safe = eps).

(** ** Exact solutions of the equations of motion *)

(** The components of a state and of a right-hand side value. *)
Definition st_f (y : state) : R := let '(f, _, _, _, _) := y in f.
Definition st_f_prime (y : state) : R := let '(_, f_prime, _, _, _) := y in f_prime.
Definition st_f_double_prime (y : state) : R := let '(_, _, f_double_prime, _, _) := y in f_double_prime.
Definition st_phi (y : state) : R := let '(_, _, _, phi, _) := y in phi.
Definition st_phi_prime (y : state) : R := let '(_, _, _, _, phi_prime) := y in phi_prime.

Definition dv_f (d : deriv) : R := let '(d0, _, _, _, _) := d in d0.
Definition dv_f_prime (d : deriv) : R := let '(_, d1, _, _, _) := d in d1.
Definition dv_f_double_prime (d : deriv) : npfloat := let '(_, _, d2, _, _) := d in d2.
Definition dv_phi (d : deriv) : R := let '(_, _, _, d3, _) := d in d3.
Definition dv_phi_prime (d : deriv) : R := let '(_, _, _, _, d4) := d in d4.

(** [traj] solves [y' = rhs(t, y)] on [[a, b]]: at every time of the
    interval each component of [traj] has the derivative [rhs] returns,
    which is finite. *)
Definition is_solution_on (rhs : R -> state -> deriv) (a b : R) (traj : R -> state) : Prop :=
  forall t, a <= t <= b ->
    derivable_pt_lim (fun s => st_f (traj s)) t (dv_f (rhs t (traj t)))
    /\ derivable_pt_lim (fun s => st_f_prime (traj s)) t (dv_f_prime (rhs t (traj t)))
    /\ (exists v, dv_f_double_prime (rhs t (traj t)) = Some v
                  /\ derivable_pt_lim (fun s => st_f_double_prime (traj s)) t v)
    /\ derivable_pt_lim (fun s => st_phi (traj s)) t (dv_phi (rhs t (traj t)))
    /\ derivable_pt_lim (fun s => st_phi_prime (traj s)) t (dv_phi_prime (rhs t (traj t))).

(** ** Messages *)

(** [sub] occurs in [s]. *)
Definition contains (s sub : string) : Prop :=
  exists pre post, s = (pre ++ sub ++ post)%string.

(** ** What the specification says of invalid configurations *)

Definition invalid_configuration (config : Config) : Prop :=
  t_end config <= t_start config \/ (N config <= 0)%Z.

(** A run that was stopped by an exception before any stage returned. *)
Definition stopped_before_any_stage {A : Type} (r : run A) : Prop :=
  exists e, r = ([], inl e).

(** ** Concrete runs used below *)

(** The default configuration with the time bounds exchanged, on a grid of
    three samples. *)
Definition config_reversed_bounds : Config :=
  mkConfig 1 0.01 3 0 3 float64_eps 0.01 0.5.

(** Stand-ins for the two library parameters of [main]. *)
Definition no_degenerate_perturbations (_ : list R) (_ : R) : result perturbations :=
  inl (ValueError "lambdify").

Definition flat_spline (_ _ : list R) (_ : R) : R := 0.

(** An integrator that gives up at once, with one of SciPy's messages. *)
Definition failing_solve_ivp
    (_ : R -> state -> deriv) (_ : R * R) (_ : state) (_ : string) (_ : list R) (_ _ : R)
    : result OdeResult :=
  inr (mkOdeResult false "Required step size is less than spacing between numbers." []).

(** The default configuration without coupling, a vanishing source, and the
    trajectory [f(t) = t], [phi(t) = 2 + 3 t]. *)
Definition config_decoupled : Config :=
  mkConfig 0 0.01 0 3 1000000 float64_eps 0.01 0.5.

Definition zero_source (_ : R) : R := 0.

Definition linear_trajectory (t : R) : state := (t, 1, 0, 2 + 3 * t, 3).

(** A solver result on the grid [[0; 3]] whose first-derivative row starts
    at zero: rows [f], [f'], [f''], [phi], [phi']. *)
Definition sol_f_prime_zero : OdeResult :=
  mkOdeResult true "The solver successfully reached the end of the integration interval."
              [[0; 3]; [0; 1]; [2; 0]; [0.01; 0]; [0; 0]].

(** The default configuration on a grid of two samples, and an integrator
    that reports success with one column per sample. *)
Definition config_two_samples : Config :=
  mkConfig 1 0.01 0 3 2 float64_eps 0.01 0.5.

Definition succeeding_solve_ivp
    (_ : R -> state -> deriv) (_ : R * R) (_ : state) (_ : string) (_ : list R) (_ _ : R)
    : result OdeResult :=
  inr (mkOdeResult true
         "The solver successfully reached the end of the integration interval."
         [[0; 3]; [1; 1]; [0; 0]; [0.01; 0.01]; [0; 0]]).

(** The default configuration with the thermal driving switched off. *)
Definition config_no_driving : Config :=
  mkConfig 1 0.01 0 3 1000000 float64_eps 0 0.5.

(** The default configuration with the guard switched off ([epsilon = 0]). *)
Definition config_zero_epsilon : Config :=
  mkConfig 1 0.01 0 3 1000000 0 0.01 0.5.

(** The formula of lines 105-106 with the derivative itself as divisor. *)
Definition unguarded_schwarzian (f_prime f_double_prime f_triple_prime : R) : R :=
  f_triple_prime / f_prime - 1.5 * (f_double_prime / f_prime) ^ 2.

(** An integrator that reports success and returns the given rows. *)
Definition solve_ivp_returning (rows : list (list R))
    (_ : R -> state -> deriv) (_ : R * R) (_ : state) (_ : string) (_ : list R) (_ _ : R)
    : result OdeResult :=
  inr (mkOdeResult true
         "The solver successfully reached the end of the integration interval." rows).

(** An integrator that raises [ValueError] when the right-hand side is not
    finite at the initial state, as SciPy does, and succeeds otherwise. *)
Definition solve_ivp_rejecting_nonfinite
    (rhs : R -> state -> deriv) (t_span : R * R) (y0 : state) (_ : string)
    (_ : list R) (_ _ : R) : result OdeResult :=
  match dv_f_double_prime (rhs (fst t_span) y0) with
  | None => inl (ValueError "solve_ivp")
  | Some _ =>
      inr (mkOdeResult true
             "The solver successfully reached the end of the integration interval." [])
  end.

(** ** What the specification says of the failure surface *)

(** The only exception that leaves with [outcome] is the error of a failed
    integration, a [RuntimeError]. *)
Definition only_integration_failure {A : Type} (outcome : result A) : Prop :=
  forall e, outcome = inl e -> exists msg, e = RuntimeError msg.

(** ** The reconstruction in binary64

    Lines 143-151 at one grid index, in IEEE binary64 arithmetic: the same
    operations in the same order as [S_evolved_at], with [eps] for
    [config.epsilon] and [c] for [config.C]. *)
Module F64.

Import Stdlib.Floats.PrimFloat.
Local Open Scope float_scope.

(** [np.finfo(np.float64).eps] *)
Definition eps : float := 0x1p-52.

(** [np.sign] *)
Definition sign (x : float) : float :=
  if ltb x 0 then -1 else if ltb 0 x then 1 else x.

(** Line 143. *)
Definition f_prime_safe_where (eps x : float) : float :=
  if ltb eps (abs x) then x else sign x * eps.

(** Lines 144-151. *)
Definition S_evolved_at (eps c S0_t temperature f_prime f_double_prime phi_prime : float)
    : float :=
  let f_prime_evolved_safe := f_prime_safe_where eps f_prime in
  let ratio := f_double_prime / f_prime_evolved_safe in
  let S_time_dependent := S0_t * temperature in
  let f_triple_prime_evolved :=
    f_prime_evolved_safe * (S_time_dependent + 1.5 * (ratio * ratio)) + c * phi_prime in
  f_triple_prime_evolved / f_prime_evolved_safe - 1.5 * (ratio * ratio).


End F64.

(** * Properties *)

(** ** Arithmetic of the guards *)

Ltac guard_cases :=
  unfold f_prime_safe_clip, f_prime_safe_where, clip_lower, where_, gt, sign, Rmax, Rabs in *;
  repeat match goal with
         | |- context [Rlt_dec ?a ?b] => destruct (Rlt_dec a b)
         | |- context [Rle_dec ?a ?b] => destruct (Rle_dec a b)
         | |- context [Rcase_abs ?a] => destruct (Rcase_abs a)
         | H : context [Rlt_dec ?a ?b] |- _ => destruct (Rlt_dec a b)
         | H : context [Rle_dec ?a ?b] |- _ => destruct (Rle_dec a b)
         | H : context [Rcase_abs ?a] |- _ => destruct (Rcase_abs a)
         end.

Lemma float64_eps_pos : 0 < float64_eps.
Proof.
  unfold float64_eps. apply Rinv_0_lt_compat, pow_lt. lra.
Qed.

Lemma float64_eps_lt_1 : float64_eps < 1.
Proof.
  unfold float64_eps. rewrite <- Rinv_1.
  apply Rinv_lt_contravar.
  - rewrite Rmult_1_l. apply pow_lt. lra.
  - apply Rlt_pow_R1; [lra | apply Nat.lt_0_succ].
Qed.

Lemma f_prime_safe_clip_lower (config : Config) (x : R) :
  lower_clamp (epsilon config) x (f_prime_safe_clip config x).
Proof.
  unfold lower_clamp. split; intros H; guard_cases; lra.
Qed.

Lemma f_prime_safe_clip_ge (config : Config) (x : R) :
  epsilon config <= f_prime_safe_clip config x.
Proof. guard_cases; lra. Qed.

Lemma f_prime_safe_clip_nonzero (config : Config) (x : R) :
  0 < epsilon config -> f_prime_safe_clip config x <> 0.
Proof.
  intros Heps. pose proof (f_prime_safe_clip_ge config x). lra.
Qed.

Lemma f_prime_safe_where_positive (config : Config) (x : R) :
  0 < x -> f_prime_safe_where config x = f_prime_safe_clip config x.
Proof. intros Hx. guard_cases; lra. Qed.

Lemma f_prime_safe_where_zero (config : Config) :
  f_prime_safe_where config 0 = 0.
Proof. guard_cases; lra. Qed.

Lemma f_prime_safe_where_sign_preserving (config : Config) (x : R) :
  x <> 0 -> sign_preserving_clamp (epsilon config) x (f_prime_safe_where config x).
Proof.
  intros Hx. unfold sign_preserving_clamp.
  repeat split; intros; guard_cases; lra.
Qed.

Lemma f_prime_safe_where_magnitude (config : Config) (x : R) :
  0 < epsilon config -> x <> 0 -> epsilon config <= Rabs (f_prime_safe_where config x).
Proof.
  intros Heps Hx. guard_cases; lra.
Qed.

(** ** Arrays: what an elementwise expression holds at one index *)

Lemma nth_error_map2 {A B D : Type} (f : A -> B -> D) (xs : list A) (ys : list B) (i : nat) :
  nth_error (map2 f xs ys) i =
  match nth_error xs i, nth_error ys i with
  | Some x, Some y => Some (f x y)
  | _, _ => None
  end.
Proof.
  revert ys i. induction xs as [|x xs IH]; intros [|y ys] [|i]; simpl; auto.
  destruct (nth_error xs i); reflexivity.
Qed.

Lemma length_map2 {A B D : Type} (f : A -> B -> D) (xs : list A) (ys : list B) :
  List.length (map2 f xs ys) = Nat.min (List.length xs) (List.length ys).
Proof.
  revert ys. induction xs as [|x xs IH]; intros [|y ys]; simpl; auto.
Qed.

Ltac at_index :=
  repeat (rewrite ?nth_error_map2, ?nth_error_map;
          repeat match goal with
                 | H : nth_error ?l ?i = _ |- context [nth_error ?l ?i] => rewrite H
                 end;
          cbn [option_map]).

(** The initial profile at index [i] is the one-point formula [S_initial_at]. *)
Lemma compute_initial_schwarzian_nth
    (config : Config) (t_np phi_initial phi_prime phi_double_prime phi_triple_prime : list R)
    (i : nat) (p1 p2 p3 : R) :
  nth_error phi_prime i = Some p1 ->
  nth_error phi_double_prime i = Some p2 ->
  nth_error phi_triple_prime i = Some p3 ->
  nth_error (snd (compute_initial_schwarzian config t_np phi_initial phi_prime
                                             phi_double_prime phi_triple_prime)) i
  = Some (S_initial_at config p1 p2 p3).
Proof.
  intros H1 H2 H3. unfold compute_initial_schwarzian. cbn [snd].
  at_index. reflexivity.
Qed.

(** The evolved profile at index [i] is the one-point formula [S_evolved_at]. *)
Lemma process_and_plot_solution_nth
    (config : Config) (t_np : list R) (sol : OdeResult) (phi_initial : list R)
    (S_initial : list npfloat) (f_initial : list R) (S0_spline : R -> R)
    (i : nat) (t f1 f2 p1 : R) :
  nth_error t_np i = Some t ->
  nth_error (row sol 1) i = Some f1 ->
  nth_error (row sol 2) i = Some f2 ->
  nth_error (row sol 4) i = Some p1 ->
  nth_error (plot_S_evolved
               (process_and_plot_solution config t_np sol phi_initial S_initial
                                          f_initial S0_spline)) i
  = Some (S_evolved_at config (S0_spline t)
                       (temperature_perturbation t (delta_T config) (omega_T config))
                       f1 f2 p1).
Proof.
  intros Ht H1 H2 H4. unfold process_and_plot_solution. cbn [plot_S_evolved].
  at_index. reflexivity.
Qed.

(** ** The guarded Schwarzian at one point *)

Ltac unfold_np := cbv [schwarzian_at ratio_at div add sub mul sq lift2 finite] in *.

Lemma schwarzian_at_finite (f3 f2 safe : R) :
  safe <> 0 ->
  schwarzian_at (finite f3) f2 safe
  = finite (f3 / safe - 1.5 * ((f2 / safe) * (f2 / safe))).
Proof.
  intros Hs. unfold_np. destruct (Req_dec_T safe 0); [contradiction | reflexivity].
Qed.

Lemma schwarzian_at_zero_divisor (a : npfloat) (f2 : R) :
  schwarzian_at a f2 0 = None.
Proof.
  unfold_np. destruct a; destruct (Req_dec_T 0 0); try reflexivity; contradiction.
Qed.

(** The initial path never meets a zero divisor when [epsilon] is positive. *)
Lemma schwarzian_initial_path_finite (config : Config) (f1 f2 f3 : R) :
  0 < epsilon config ->
  exists s, schwarzian_initial_path config f1 f2 (finite f3) = finite s.
Proof.
  intros Heps. unfold schwarzian_initial_path.
  rewrite schwarzian_at_finite by (apply f_prime_safe_clip_nonzero; assumption).
  eexists; reflexivity.
Qed.

(** *** C1 *)

(** C1, at the failing input: at [f' = -1] (with [f'' = 0], [f''' = 1] and the
    default configuration) the initial path divides by [epsilon], the
    reconstruction path by [-1], and the two Schwarzian values differ. *)
Lemma C1_paths_differ_at_negative_f_prime :
  f_prime_safe_clip default_config (-1) = epsilon default_config
  /\ f_prime_safe_where default_config (-1) = -1
  /\ f_prime_safe_clip default_config (-1) <> f_prime_safe_where default_config (-1)
  /\ schwarzian_initial_path default_config (-1) 0 (finite 1)
     <> schwarzian_reconstruction_path default_config (-1) 0 (finite 1).
Proof.
  pose proof float64_eps_pos as Hpos. pose proof float64_eps_lt_1 as Hlt.
  assert (Hc : f_prime_safe_clip default_config (-1) = float64_eps)
    by (cbn [epsilon default_config]; guard_cases; cbn [epsilon default_config] in *; lra).
  assert (Hw : f_prime_safe_where default_config (-1) = -1)
    by (guard_cases; cbn [epsilon default_config] in *; lra).
  repeat split.
  - exact Hc.
  - exact Hw.
  - rewrite Hc, Hw. lra.
  - unfold schwarzian_initial_path, schwarzian_reconstruction_path.
    rewrite Hc, Hw.
    rewrite !schwarzian_at_finite by lra.
    unfold finite. intros Heq. injection Heq as Heq.
    assert (0 < 1 / float64_eps) by (apply Rdiv_lt_0_compat; lra).
    unfold Rdiv in *. rewrite !Rmult_0_l in Heq. lra.
Qed.

(** Where the two guards agree: for every triple with a positive first
    derivative the two paths use the same divisor and return the same
    Schwarzian value. *)
Theorem C1_paths_agree_for_positive_f_prime
    (config : Config) (f_prime f_double_prime f_triple_prime : R) :
  0 < f_prime ->
  f_prime_safe_clip config f_prime = f_prime_safe_where config f_prime
  /\ schwarzian_initial_path config f_prime f_double_prime (finite f_triple_prime)
     = schwarzian_reconstruction_path config f_prime f_double_prime (finite f_triple_prime).
Proof.
  intros Hpos.
  pose proof (f_prime_safe_where_positive config f_prime Hpos) as Heq.
  split; [symmetry; exact Heq|].
  unfold schwarzian_initial_path, schwarzian_reconstruction_path.
  rewrite Heq. reflexivity.
Qed.

Lemma C1_paths_agree_witness :
  0 < 1
  /\ f_prime_safe_clip default_config 1 = f_prime_safe_where default_config 1
  /\ schwarzian_initial_path default_config 1 0 (finite 0)
     = schwarzian_reconstruction_path default_config 1 0 (finite 0).
Proof.
  split; [exact Rlt_0_1 |].
  apply (C1_paths_agree_for_positive_f_prime default_config 1 0 0 Rlt_0_1).
Defined.

(** *** C2 *)

(** C2, at the failing input: the guard of the initial computation and of
    the integrator right-hand side replaces [f' = -1] by the positive [epsilon],
    so it is no sign-preserving clamp. *)
Lemma C2_clip_replaces_negative_by_positive :
  0 < f_prime_safe_clip default_config (-1)
  /\ ~ sign_preserving_clamp (epsilon default_config) (-1)
                             (f_prime_safe_clip default_config (-1)).
Proof.
  pose proof float64_eps_pos as Hpos.
  assert (Hc : 0 < f_prime_safe_clip default_config (-1))
    by (pose proof (f_prime_safe_clip_ge default_config (-1)) as H;
        cbn [epsilon default_config] in H; lra).
  split; [exact Hc|].
  intros (_ & _ & Hneg & _).
  assert (f_prime_safe_clip default_config (-1) < 0) by (apply Hneg; lra).
  lra.
Qed.

(** What the two guards compute: the guard of the initial computation and of
    the integrator right-hand side is the lower clamp [max(f', epsilon)]; the guard of the
    reconstruction is a sign-preserving clamp at every non-zero [f']. *)
Theorem C2_guards_as_implemented (config : Config) (f_prime : R) :
  lower_clamp (epsilon config) f_prime (f_prime_safe_clip config f_prime)
  /\ (f_prime <> 0 ->
      sign_preserving_clamp (epsilon config) f_prime (f_prime_safe_where config f_prime)).
Proof.
  split.
  - apply f_prime_safe_clip_lower.
  - apply f_prime_safe_where_sign_preserving.
Qed.

Lemma C2_guards_witness :
  lower_clamp (epsilon default_config) (-1) (f_prime_safe_clip default_config (-1))
  /\ sign_preserving_clamp (epsilon default_config) (-1)
                           (f_prime_safe_where default_config (-1)).
Proof.
  split.
  - exact (proj1 (C2_guards_as_implemented default_config (-1))).
  - apply (proj2 (C2_guards_as_implemented default_config (-1))). lra.
Defined.

(** *** C3 *)

Lemma initial_divisor_magnitude (config : Config) (f_prime : R) :
  0 < epsilon config -> epsilon config <= Rabs (f_prime_safe_clip config f_prime).
Proof.
  intros Heps. pose proof (f_prime_safe_clip_ge config f_prime) as Hge.
  rewrite Rabs_right; lra.
Qed.

Lemma S_evolved_at_zero_f_prime (config : Config) (S0_t temperature f2 p1 : R) :
  S_evolved_at config S0_t temperature 0 f2 p1 = None.
Proof.
  unfold S_evolved_at, schwarzian_reconstruction_path.
  rewrite f_prime_safe_where_zero. apply schwarzian_at_zero_divisor.
Qed.

(** C3, at the failing input: when the evolved first derivative is exactly
    zero at a grid point, the reconstruction guard returns the divisor 0
    (its magnitude is below [epsilon]) and the evolved Schwarzian stored at
    that grid point is not a finite number. *)
Theorem C3_reconstruction_divides_by_zero
    (phi_initial : list R) (S_initial : list npfloat) (f_initial : list R)
    (S0_spline : R -> R) :
  f_prime_safe_where default_config 0 = 0
  /\ Rabs (f_prime_safe_where default_config 0) < epsilon default_config
  /\ nth_error (plot_S_evolved
                  (process_and_plot_solution default_config [0; 3] sol_f_prime_zero
                                             phi_initial S_initial f_initial S0_spline)) 0
     = Some None.
Proof.
  pose proof float64_eps_pos as Hpos.
  split; [apply f_prime_safe_where_zero|]. split.
  - rewrite f_prime_safe_where_zero, Rabs_R0. exact Hpos.
  - rewrite (@process_and_plot_solution_nth default_config [0; 3] sol_f_prime_zero
               phi_initial S_initial f_initial S0_spline 0%nat 0 0 2 0);
      try reflexivity.
    rewrite S_evolved_at_zero_f_prime. reflexivity.
Qed.

(** ** The right-hand side of the equations of motion *)

Lemma equations_of_motion_components
    (config : Config) (S0_spline : R -> R) (t f f1 f2 phi phi1 : R) :
  0 < epsilon config ->
  equations_of_motion config S0_spline t (f, f1, f2, phi, phi1)
  = (f1, f2,
     finite (f_prime_safe_clip config f1
             * (S_time_dependent_at config S0_spline t
                + 1.5 * (f2 / f_prime_safe_clip config f1) ^ 2)
             + C config * phi1),
     phi1, - C config * f1).
Proof.
  intros Heps. unfold equations_of_motion, S_time_dependent_at.
  pose proof (f_prime_safe_clip_nonzero config f1 Heps) as Hnz.
  unfold_np. destruct (Req_dec_T (f_prime_safe_clip config f1) 0); [contradiction|].
  match goal with
  | |- (_, _, Some ?a, _, _) = (_, _, Some ?b, _, _) => replace a with b by ring
  end.
  reflexivity.
Qed.

(** *** C5 *)



(** *** C9 *)

(** C9: with [delta_T = 0] the temperature is 1 at every time, the source
    the right-hand side uses is the spline value unchanged, and the
    temperature series of the reconstruction is constantly 1. *)
Theorem C9_no_thermal_driving (config : Config) :
  delta_T config = 0 ->
  (forall t, temperature_perturbation t (delta_T config) (omega_T config) = 1)
  /\ (forall S0_spline t, S_time_dependent_at config S0_spline t = S0_spline t)
  /\ (forall t_np sol phi_initial S_initial f_initial S0_spline,
        plot_temperature (process_and_plot_solution config t_np sol phi_initial
                                                    S_initial f_initial S0_spline)
        = map (fun _ => 1) t_np).
Proof.
  intros HdT.
  assert (HT : forall t, temperature_perturbation t (delta_T config) (omega_T config) = 1)
    by (intros t; unfold temperature_perturbation; rewrite HdT; ring).
  split; [exact HT|]. split.
  - intros S0_spline t. unfold S_time_dependent_at. rewrite HT. ring.
  - intros. unfold process_and_plot_solution. cbn [plot_temperature].
    apply map_ext. exact HT.
Qed.

Lemma C9_no_thermal_driving_witness :
  delta_T config_no_driving = 0
  /\ temperature_perturbation 2 (delta_T config_no_driving) (omega_T config_no_driving) = 1
  /\ S_time_dependent_at config_no_driving (fun t => t * t) 2 = 2 * 2.
Proof.
  split; [reflexivity|].
  destruct (C9_no_thermal_driving config_no_driving eq_refl) as (HT & HS & _).
  split; [apply HT | apply (HS (fun t => t * t))].
Defined.

(** *** C10 *)

Lemma S_evolved_at_is_source (config : Config) (S0_t temperature f1 f2 p1 : R) :
  S_evolved_at config S0_t temperature f1 f2 p1
  = add (finite (S0_t * temperature))
        (div (finite (C config * p1)) (f_prime_safe_where config f1)).
Proof.
  unfold S_evolved_at, schwarzian_reconstruction_path, f_triple_prime_evolved_at.
  unfold_np. destruct (Req_dec_T (f_prime_safe_where config f1) 0) as [Hz|Hnz].
  - reflexivity.
  - f_equal. field. exact Hnz.
Qed.

Module Binary64.

Import Stdlib.Floats.PrimFloat.
Local Open Scope float_scope.
#[local] Set Warnings "-inexact-float".


End Binary64.



(** *** C8 *)

Lemma clip_of_one_nonzero (config : Config) : f_prime_safe_clip config (1 + 0) <> 0.
Proof. guard_cases; lra. Qed.

Lemma S_initial_at_identity (config : Config) :
  S_initial_at config 0 0 0 = finite 0.
Proof.
  unfold S_initial_at, schwarzian_initial_path.
  rewrite schwarzian_at_finite by apply clip_of_one_nonzero.
  unfold finite. f_equal. unfold Rdiv. ring.
Qed.

(** C8: for the identity map, that is zero perturbation arrays on any grid,
    [compute_initial_schwarzian] returns [f = t], [f' = 1], [f'' = 0] and the
    Schwarzian 0 at every sample. *)
Theorem C8_identity_has_zero_schwarzian (config : Config) (t_np : list R) :
  let zeros := map (fun _ => 0) t_np in
  compute_initial_schwarzian config t_np zeros zeros zeros zeros
  = (t_np, map (fun _ => 1) t_np, zeros, map (fun _ => finite 0) t_np).
Proof.
  cbv zeta. unfold compute_initial_schwarzian.
  pose proof (S_initial_at_identity config) as HS.
  unfold S_initial_at, schwarzian_initial_path, schwarzian_at in HS.
  assert (Hf : map2 Rplus t_np (map (fun _ => 0) t_np) = t_np).
  { induction t_np as [|t ts IH]; simpl; [reflexivity|].
    f_equal; [ring | exact IH]. }
  assert (Hf1 : map (fun p => 1 + p) (map (fun _ : R => 0) t_np) = map (fun _ => 1) t_np).
  { rewrite map_map. apply map_ext. intros _. ring. }
  assert (HS' :
    map2 sub
      (map2 div (map finite (map (fun _ : R => 0) t_np))
            (map (f_prime_safe_clip config)
                 (map (fun p => 1 + p) (map (fun _ : R => 0) t_np))))
      (map (fun r => mul (finite 1.5) (sq r))
           (map2 ratio_at (map (fun _ : R => 0) t_np)
                 (map (f_prime_safe_clip config)
                      (map (fun p => 1 + p) (map (fun _ : R => 0) t_np)))))
    = map (fun _ => finite 0) t_np).
  { clear Hf Hf1. induction t_np as [|t ts IH]; simpl; [reflexivity|].
    f_equal; [exact HS | exact IH]. }
  rewrite HS', Hf, Hf1. reflexivity.
Qed.

(** *** C6 *)

Lemma solver_failed_message_contains (sol : OdeResult) :
  contains (solver_failed_message sol) (message sol).
Proof.
  exists "Solver failed: "%string,
         ". Consider adjusting solver parameters or reviewing initial conditions."%string.
  reflexivity.
Qed.

(** What a call of [solve_equations_of_motion] that returns says about the
    integrator. *)
Lemma solve_equations_of_motion_returns
    (config : Config)
    (solve_ivp : (R -> state -> deriv) -> R * R -> state -> string -> list R -> R -> R
                 -> result OdeResult)
    (t_np : list R) (initial_conditions : state) (S0_spline : R -> R) (sol : OdeResult) :
  solve_equations_of_motion config solve_ivp t_np initial_conditions S0_spline = inr sol ->
  success sol = true
  /\ exists t0 t1,
       first t_np = Some t0
       /\ last_elt t_np = Some t1
       /\ solve_ivp (equations_of_motion config S0_spline) (t0, t1)
                    initial_conditions "Radau"%string t_np 1e-8 1e-8 = inr sol.
Proof.
  unfold solve_equations_of_motion.
  destruct (first t_np) as [t0|]; [|discriminate].
  destruct (last_elt t_np) as [t1|]; [|discriminate].
  destruct (solve_ivp _ _ _ _ _ _ _) as [e|sol'] eqn:Hivp; [discriminate|].
  destruct (success sol') eqn:Hs; cbn [negb]; [|discriminate].
  intros Heq. injection Heq as <-.
  split; [exact Hs|]. exists t0, t1.
  split; [reflexivity|]. split; [reflexivity | exact Hivp].
Qed.

(** C6, as stated, fails: other exceptions than the integration failure
    leave [solve_equations_of_motion].  On an empty grid it raises
    [IndexError]; and when the integrator itself raises (here [ValueError],
    on a right-hand side that is not finite: [epsilon = 0] and [f' = 0]),
    the exception passes line 127 unchanged. *)
Lemma C6_other_exceptions_cross :
  solve_equations_of_motion default_config failing_solve_ivp []
                            (0, 1, 0, 0.01, 0) zero_source
  = inl IndexError
  /\ solve_equations_of_motion config_zero_epsilon solve_ivp_rejecting_nonfinite [0; 3]
                               (0, 0, 2, 0.01, 0) zero_source
     = inl (ValueError "solve_ivp")
  /\ ~ only_integration_failure
        (solve_equations_of_motion config_zero_epsilon solve_ivp_rejecting_nonfinite
                                   [0; 3] (0, 0, 2, 0.01, 0) zero_source).
Proof.
  assert (Hrhs : dv_f_double_prime
                   (equations_of_motion config_zero_epsilon zero_source 0
                                        (0, 0, 2, 0.01, 0)) = None).
  { unfold equations_of_motion. cbn [dv_f_double_prime].
    assert (Hz : f_prime_safe_clip config_zero_epsilon 0 = 0)
      by (guard_cases; cbn [epsilon config_zero_epsilon] in *; lra).
    rewrite Hz. unfold_np. destruct (Req_dec_T 0 0); [reflexivity | contradiction]. }
  assert (Hval : solve_equations_of_motion config_zero_epsilon
                   solve_ivp_rejecting_nonfinite [0; 3] (0, 0, 2, 0.01, 0) zero_source
                 = inl (ValueError "solve_ivp")).
  { unfold solve_equations_of_motion, solve_ivp_rejecting_nonfinite.
    cbn [first last_elt hd_error rev app fst]. rewrite Hrhs. reflexivity. }
  split; [reflexivity|]. split; [exact Hval|].
  intros Honly. destruct (Honly (ValueError "solve_ivp") Hval) as [msg Hmsg].
  discriminate Hmsg.
Qed.

(** C6, amended: on a non-empty grid, when [solve_ivp] returns a result
    whose success flag is false, [solve_equations_of_motion] raises
    [RuntimeError] with a message that contains the integrator's own
    message; an exception raised by [solve_ivp] itself leaves the function
    unchanged; and a trajectory is returned only when [solve_ivp] returned
    it with the success flag set, so no partial trajectory is returned. *)
Theorem C6_integration_failure_outcomes
    (config : Config)
    (solve_ivp : (R -> state -> deriv) -> R * R -> state -> string -> list R -> R -> R
                 -> result OdeResult)
    (t_np : list R) (initial_conditions : state) (S0_spline : R -> R) (t0 t1 : R) :
  first t_np = Some t0 ->
  last_elt t_np = Some t1 ->
  let attempt := solve_ivp (equations_of_motion config S0_spline) (t0, t1)
                           initial_conditions "Radau"%string t_np 1e-8 1e-8 in
  let outcome := solve_equations_of_motion config solve_ivp t_np initial_conditions
                                           S0_spline in
  (forall sol, attempt = inr sol -> success sol = false ->
     outcome = inl (RuntimeError (solver_failed_message sol))
     /\ contains (solver_failed_message sol) (message sol))
  /\ (forall e, attempt = inl e -> outcome = inl e)
  /\ (forall sol, outcome = inr sol -> attempt = inr sol /\ success sol = true).
Proof.
  intros H0 H1 attempt outcome. split; [|split].
  - intros sol Hsol Hfail. split.
    + unfold outcome, solve_equations_of_motion. rewrite H0, H1.
      fold attempt. rewrite Hsol, Hfail. reflexivity.
    + apply solver_failed_message_contains.
  - intros e He. unfold outcome, solve_equations_of_motion. rewrite H0, H1.
    fold attempt. rewrite He. reflexivity.
  - intros sol Hout.
    destruct (solve_equations_of_motion_returns config solve_ivp t_np initial_conditions
                S0_spline sol Hout) as (Hs & t0' & t1' & Hf & Hl & Hivp).
    rewrite H0 in Hf. rewrite H1 in Hl.
    injection Hf as <-. injection Hl as <-.
    split; [exact Hivp | exact Hs].
Qed.

Lemma C6_integration_failure_witness :
  first [0; 3] = Some 0
  /\ last_elt [0; 3] = Some 3
  /\ (exists sol,
        failing_solve_ivp (equations_of_motion default_config zero_source) (0, 3)
                          (0, 1, 0, 0.01, 0) "Radau"%string [0; 3] 1e-8 1e-8 = inr sol
        /\ success sol = false
        /\ solve_equations_of_motion default_config failing_solve_ivp [0; 3]
                                     (0, 1, 0, 0.01, 0) zero_source
           = inl (RuntimeError (solver_failed_message sol))
        /\ contains (solver_failed_message sol) (message sol)).
Proof.
  split; [reflexivity|]. split; [reflexivity|].
  eexists. split; [reflexivity|]. split; [reflexivity|].
  exact (proj1 (C6_integration_failure_outcomes default_config failing_solve_ivp [0; 3]
                  (0, 1, 0, 0.01, 0) zero_source 0 3 eq_refl eq_refl)
           _ eq_refl eq_refl).
Defined.

(** ** Decoupling *)

(** A function whose derivative vanishes on an interval is constant there. *)
Lemma zero_derivative_constant (g : R -> R) (a b : R) :
  (forall c, a <= c <= b -> derivable_pt_lim g c 0) ->
  forall u v, a <= u <= b -> a <= v <= b -> g u = g v.
Proof.
  intros Hd.
  assert (Hlt : forall u v, a <= u <= b -> a <= v <= b -> u < v -> g u = g v).
  { intros u v Hu Hv Huv.
    destruct (MVT_cor2 g (fun _ => 0) u v Huv) as (c & Hc & _).
    - intros c Hc. apply Hd. lra.
    - lra. }
  intros u v Hu Hv.
  destruct (Rtotal_order u v) as [Huv|[Huv|Huv]].
  - apply Hlt; assumption.
  - subst; reflexivity.
  - symmetry. apply Hlt; assumption.
Qed.

(** A function whose derivative is the constant [k] on an interval is
    affine there. *)
Lemma constant_derivative_affine (g : R -> R) (k a b : R) :
  (forall c, a <= c <= b -> derivable_pt_lim g c k) ->
  forall u v, a <= u <= b -> a <= v <= b -> g v = g u + k * (v - u).
Proof.
  intros Hd u v Hu Hv.
  assert (Hconst : (fun s => g s - k * s) u = (fun s => g s - k * s) v).
  { apply (zero_derivative_constant (fun s => g s - k * s) a b); try assumption.
    intros c Hc.
    replace 0 with (k - k * 1) by ring.
    apply (derivable_pt_lim_minus g (fun s => k * s)).
    - apply Hd; assumption.
    - apply (derivable_pt_lim_scal id k c 1). apply derivable_pt_lim_id. }
  simpl in Hconst. lra.
Qed.

Lemma equations_of_motion_phi_components
    (config : Config) (S0_spline : R -> R) (t : R) (y : state) :
  dv_phi (equations_of_motion config S0_spline t y) = st_phi_prime y
  /\ dv_phi_prime (equations_of_motion config S0_spline t y) = - C config * st_f_prime y.
Proof.
  destruct y as [[[[f f1] f2] phi] phi1]. split; reflexivity.
Qed.

(** *** C7 *)

(** C7: with [C = 0] the right-hand side returns [phi'' = 0] and an [f''']
    that is the same for every [f], [phi] and [phi'] (it is fixed by the
    time, [f'] and [f'']); consequently, along every exact solution of the
    equations of motion on an interval, [phi] is linear:
    [phi(t) = phi(t0) + phi'(t0) * (t - t0)]. *)
Theorem C7_decoupled_without_coupling (config : Config) :
  C config = 0 ->
  (forall S0_spline t y, dv_phi_prime (equations_of_motion config S0_spline t y) = 0)
  /\ (forall S0_spline t f_prime f_double_prime f phi phi_prime g psi psi_prime,
         dv_f_double_prime
           (equations_of_motion config S0_spline t (f, f_prime, f_double_prime, phi, phi_prime))
         = dv_f_double_prime
             (equations_of_motion config S0_spline t (g, f_prime, f_double_prime, psi, psi_prime)))
  /\ (forall S0_spline a b traj,
         is_solution_on (equations_of_motion config S0_spline) a b traj ->
         forall t0 t, a <= t0 <= b -> a <= t <= b ->
           st_phi (traj t) = st_phi (traj t0) + st_phi_prime (traj t0) * (t - t0)).
Proof.
  intros HC.
  assert (Hpp : forall S0_spline t y,
             dv_phi_prime (equations_of_motion config S0_spline t y) = 0).
  { intros S0_spline t y.
    rewrite (proj2 (equations_of_motion_phi_components config S0_spline t y)), HC. ring. }
  split; [exact Hpp|]. split.
  - intros. unfold equations_of_motion, dv_f_double_prime. rewrite HC.
    replace (0 * phi_prime) with (0 * psi_prime) by ring. reflexivity.
  - intros S0_spline a b traj Hsol t0 t Ht0 Ht.
    assert (Hvel : forall c, a <= c <= b -> st_phi_prime (traj c) = st_phi_prime (traj t0)).
    { intros c Hc.
      apply (zero_derivative_constant (fun s => st_phi_prime (traj s)) a b); try assumption.
      intros c' Hc'. destruct (Hsol c' Hc') as (_ & _ & _ & _ & Hd).
      rewrite Hpp in Hd. exact Hd. }
    apply (constant_derivative_affine (fun s => st_phi (traj s))
             (st_phi_prime (traj t0)) a b); try assumption.
    intros c Hc. destruct (Hsol c Hc) as (_ & _ & _ & Hd & _).
    rewrite (proj1 (equations_of_motion_phi_components config S0_spline c (traj c))) in Hd.
    rewrite Hvel in Hd by assumption. exact Hd.
Qed.

Lemma linear_trajectory_is_solution :
  is_solution_on (equations_of_motion config_decoupled zero_source) 0 3 linear_trajectory.
Proof.
  intros t _. unfold linear_trajectory.
  rewrite equations_of_motion_components by exact float64_eps_pos.
  cbn [st_f st_f_prime st_f_double_prime st_phi st_phi_prime
       dv_f dv_f_prime dv_f_double_prime dv_phi dv_phi_prime].
  repeat split.
  - apply derivable_pt_lim_id.
  - apply (derivable_pt_lim_const 1).
  - eexists. split; [reflexivity|].
    assert (Hnz : f_prime_safe_clip config_decoupled 1 <> 0)
      by (apply f_prime_safe_clip_nonzero; exact float64_eps_pos).
    match goal with
    | |- derivable_pt_lim _ _ ?v => replace v with 0
    end.
    + apply (derivable_pt_lim_const 0).
    + unfold S_time_dependent_at, zero_source. cbn [C config_decoupled].
      field. exact Hnz.
  - pose proof (derivable_pt_lim_plus (fun _ => 2) (fun s => 3 * s) t 0 (3 * 1)
                  (derivable_pt_lim_const 2 t)
                  (derivable_pt_lim_scal id 3 t 1 (derivable_pt_lim_id t))) as Hd.
    replace (0 + 3 * 1) with 3 in Hd by ring. exact Hd.
  - cbn [C config_decoupled]. replace (- 0 * 1) with 0 by ring.
    apply (derivable_pt_lim_const 3).
Qed.

Lemma C7_decoupled_witness :
  C config_decoupled = 0
  /\ dv_phi_prime (equations_of_motion config_decoupled zero_source 1 (linear_trajectory 1)) = 0
  /\ st_phi (linear_trajectory 3)
     = st_phi (linear_trajectory 0) + st_phi_prime (linear_trajectory 0) * (3 - 0).
Proof.
  split; [reflexivity|].
  destruct (C7_decoupled_without_coupling config_decoupled eq_refl) as (Hpp & _ & Hlin).
  split.
  - apply Hpp.
  - apply (Hlin zero_source 0 3 linear_trajectory linear_trajectory_is_solution 0 3); lra.
Defined.

(** ** Runs of [main] on invalid configurations *)

Lemma first_map_seq (g : nat -> R) (m : nat) :
  first (map g (seq 0 (S m))) = Some (g 0%nat).
Proof. reflexivity. Qed.

Lemma last_elt_map_seq (g : nat -> R) (m : nat) :
  last_elt (map g (seq 0 (S m))) = Some (g m).
Proof.
  unfold last_elt. rewrite seq_S, map_app, rev_app_distr. reflexivity.
Qed.

Lemma strictly_increasing_descent (g : nat -> R) (m : nat) :
  g 1%nat <= g 0%nat ->
  strictly_increasing (map g (seq 0 (S (S m)))) = false.
Proof.
  intros Hle. cbn [seq map strictly_increasing].
  unfold gt. destruct (Rlt_dec (g 0%nat) (g 1%nat)); [lra | reflexivity].
Qed.

Lemma linspace_samples (start stop : R) (num : Z) :
  (0 <= num)%Z ->
  linspace start stop num
  = inr (map (fun i => start + INR i * ((stop - start) / INR (Z.to_nat num - 1)))
             (seq 0 (Z.to_nat num))).
Proof.
  intros Hnum. unfold linspace.
  destruct (Z.ltb_spec num 0); [lia | reflexivity].
Qed.

(** With a negative grid size [np.linspace] raises before any stage returns. *)
Lemma main_negative_grid_size
    (config : Config)
    (solve_ivp : (R -> state -> deriv) -> R * R -> state -> string -> list R -> R -> R
                 -> result OdeResult)
    (degenerate_perturbations : list R -> R -> result perturbations)
    (natural_cubic_spline : list R -> list R -> R -> R) :
  (N config < 0)%Z ->
  main config solve_ivp degenerate_perturbations natural_cubic_spline
  = ([], inl (ValueError "linspace")).
Proof.
  intros HN. unfold main, linspace.
  destruct (Z.ltb_spec (N config) 0); [reflexivity | lia].
Qed.

(** With grid size 0 the empty grid is built and [t_np[-1]] raises. *)
Lemma main_empty_grid
    (config : Config)
    (solve_ivp : (R -> state -> deriv) -> R * R -> state -> string -> list R -> R -> R
                 -> result OdeResult)
    (degenerate_perturbations : list R -> R -> result perturbations)
    (natural_cubic_spline : list R -> list R -> R -> R) :
  N config = 0%Z ->
  main config solve_ivp degenerate_perturbations natural_cubic_spline
  = ([Grid], inl IndexError).
Proof.
  intros HN. unfold main. rewrite linspace_samples by lia. rewrite HN. reflexivity.
Qed.

(** With exchanged time bounds the grid, the initial perturbations and the
    initial Schwarzian profile are computed, and [CubicSpline] raises. *)
Lemma main_reversed_grid
    (config : Config)
    (solve_ivp : (R -> state -> deriv) -> R * R -> state -> string -> list R -> R -> R
                 -> result OdeResult)
    (degenerate_perturbations : list R -> R -> result perturbations)
    (natural_cubic_spline : list R -> list R -> R -> R) :
  (2 <= N config)%Z ->
  t_end config < t_start config ->
  delta config <> 0 ->
  main config solve_ivp degenerate_perturbations natural_cubic_spline
  = ([Grid; SymbolicDerivation; SchwarzianInit], inl (ValueError "CubicSpline")).
Proof.
  intros HN Hrev Hdelta. unfold main. rewrite linspace_samples by lia.
  destruct (Z.to_nat (N config)) as [|[|m]] eqn:Hn; [lia | lia |].
  replace (S (S m) - 1)%nat with (S m) by lia.
  set (step := (t_end config - t_start config) / INR (S m)).
  set (g := fun i : nat => t_start config + INR i * step).
  assert (HSm : 0 < INR (S m)) by (apply lt_0_INR; lia).
  assert (Hstep : step < 0).
  { unfold step, Rdiv. apply Rmult_neg_pos; [lra | apply Rinv_0_lt_compat; exact HSm]. }
  assert (Hspan : g (S m) - g 0%nat <> 0).
  { unfold g. change (INR 0) with 0.
    assert (INR (S m) * step = t_end config - t_start config)
      by (unfold step; field; lra).
    lra. }
  assert (Hdesc : strictly_increasing (map g (seq 0 (S (S m)))) = false).
  { apply strictly_increasing_descent. unfold g. change (INR 0) with 0.
    change (INR 1) with 1. lra. }
  cbn [call bind].
  unfold compute_initial_perturbations.
  rewrite last_elt_map_seq, first_map_seq.
  destruct (Req_dec_T (g (S m) - g 0%nat) 0) as [Hz|_]; [contradiction|].
  destruct (Req_dec_T (delta config) 0) as [Hz|_]; [contradiction|].
  cbn [call bind app].
  destruct (compute_initial_schwarzian config (map g (seq 0 (S (S m)))) _ _ _ _)
    as [[[f_initial f_prime_initial] f_double_prime_initial] S_initial].
  cbn [call bind app].
  unfold CubicSpline.
  destruct (all_finite S_initial); [|reflexivity].
  rewrite Hdesc, andb_false_r. reflexivity.
Qed.

(** *** C4 *)

(** C4, as stated, fails: with the time bounds exchanged ([t_start = 3],
    [t_end = 0], three samples) no run is stopped before a stage returned,
    whatever the integrator and the spline do. *)
Lemma C4_reversed_bounds_not_detected :
  invalid_configuration config_reversed_bounds
  /\ ~ (exists solve_ivp degenerate_perturbations natural_cubic_spline,
           stopped_before_any_stage
             (main config_reversed_bounds solve_ivp degenerate_perturbations
                   natural_cubic_spline)).
Proof.
  split.
  - left. cbn [t_end t_start config_reversed_bounds]. lra.
  - intros (solve_ivp & degenerate_perturbations & natural_cubic_spline & e & He).
    rewrite main_reversed_grid in He.
    + discriminate He.
    + cbn [N config_reversed_bounds]. lia.
    + cbn [t_end t_start config_reversed_bounds]. lra.
    + cbn [delta config_reversed_bounds]. lra.
Qed.

(** ** The symbolic derivatives *)

(** [diff] followed by [lambdify] is the derivative of the lambdified
    expression: the initial conditions carry no truncation error. *)
Lemma diff_sound (e : Sym.expr) (t : R) :
  derivable_pt_lim (fun s => Sym.lambdify e s) t (Sym.lambdify (Sym.diff e) t).
Proof.
  induction e as [r| |a IHa b IHb|a IHa b IHb|a IHa|a IHa|a IHa];
    cbn [Sym.lambdify Sym.diff].
  - exact (derivable_pt_lim_const r t).
  - exact (derivable_pt_lim_id t).
  - exact (derivable_pt_lim_plus _ _ t _ _ IHa IHb).
  - exact (derivable_pt_lim_mult _ _ t _ _ IHa IHb).
  - exact (derivable_pt_lim_opp _ t _ IHa).
  - exact (derivable_pt_lim_comp _ sin t _ _ IHa (derivable_pt_lim_sin _)).
  - exact (derivable_pt_lim_comp _ cos t _ _ IHa (derivable_pt_lim_cos _)).
Qed.

(** On a grid of non-zero span and for a non-zero [delta] the six arrays are
    the sinusoid, the cosinusoid and their derivatives in closed form, with
    [omega = 2 pi / (t_np[-1] - t_np[0])]. *)
Lemma compute_initial_perturbations_closed_form
    (degenerate_perturbations : list R -> R -> result perturbations)
    (t_np : list R) (delta t_first t_last : R) :
  first t_np = Some t_first ->
  last_elt t_np = Some t_last ->
  t_last - t_first <> 0 ->
  delta <> 0 ->
  let omega := 2 * PI / (t_last - t_first) in
  compute_initial_perturbations degenerate_perturbations t_np delta
  = inr (map (fun t => delta * sin (omega * t)) t_np,
         map (fun t => delta * omega * cos (omega * t)) t_np,
         map (fun t => - delta * omega ^ 2 * sin (omega * t)) t_np,
         map (fun t => - delta * omega ^ 3 * cos (omega * t)) t_np,
         map (fun t => delta * cos (omega * t)) t_np,
         map (fun t => - delta * omega * sin (omega * t)) t_np).
Proof.
  intros Hf Hl Hspan Hdelta omega. unfold compute_initial_perturbations.
  rewrite Hf, Hl.
  destruct (Req_dec_T (t_last - t_first) 0) as [Hz|_]; [contradiction|].
  destruct (Req_dec_T delta 0) as [Hz|_]; [contradiction|].
  fold omega.
  f_equal.
  repeat match goal with
         | |- (_, _) = (_, _) => f_equal
         end;
    apply map_ext; intros t; cbn [Sym.lambdify Sym.diff]; ring.
Qed.

(** ** The guards inside the functions, at a negative first derivative *)

Lemma clip_of_negative_one :
  f_prime_safe_clip default_config (1 + -2) = float64_eps
  /\ f_prime_safe_clip default_config (-1) = float64_eps.
Proof.
  pose proof float64_eps_pos as Hpos.
  split; guard_cases; cbn [epsilon default_config] in *; lra.
Qed.

(** [compute_initial_schwarzian] at [phi' = -2], that is [f' = -1], with
    [f'' = 0] and [f''' = 1]: the profile holds [1 / epsilon]. *)
Lemma initial_profile_at_negative_f_prime :
  snd (compute_initial_schwarzian default_config [0] [0] [-2] [0] [1])
  = [finite (1 / float64_eps)].
Proof.
  pose proof float64_eps_pos as Hpos.
  unfold compute_initial_schwarzian. cbn [snd map map2].
  rewrite (proj1 clip_of_negative_one).
  pose proof (schwarzian_at_finite 1 0 float64_eps) as E.
  unfold schwarzian_at in E. rewrite E by lra.
  unfold finite. do 2 f_equal. unfold Rdiv. ring.
Qed.

(** [equations_of_motion] at [f' = -1] with the source 1: a sign-preserving
    divisor would give [f''' = -1], the right-hand side returns [epsilon]. *)
Lemma right_hand_side_at_negative_f_prime :
  dv_f_double_prime
    (equations_of_motion default_config (fun _ => 1) 0 (0, -1, 0, 0, 0))
  = finite float64_eps.
Proof.
  pose proof float64_eps_pos as Hpos.
  rewrite equations_of_motion_components by exact Hpos.
  cbn [dv_f_double_prime]. rewrite (proj2 clip_of_negative_one).
  unfold S_time_dependent_at, temperature_perturbation.
  rewrite Rmult_0_r, sin_0. unfold finite. f_equal.
  cbn [C default_config]. field. lra.
Qed.

(** ** A complete run *)

Lemma all_finite_of_finite (l : list npfloat) :
  (forall x, In x l -> x <> None) ->
  exists rs, all_finite l = Some rs /\ List.length rs = List.length l.
Proof.
  induction l as [|x l IH]; intros Hall.
  - exists []. split; reflexivity.
  - destruct IH as (rs & Hrs & Hlen); [intros z Hz; apply Hall; right; exact Hz|].
    destruct x as [r|]; [|exfalso; apply (Hall None); [left; reflexivity | reflexivity]].
    exists (r :: rs). split.
    + cbn [all_finite fold_right]. unfold all_finite in Hrs. rewrite Hrs. reflexivity.
    + cbn [List.length]. rewrite Hlen. reflexivity.
Qed.

(** With a positive [epsilon] every entry of the initial profile is finite. *)
Lemma initial_profile_finite
    (config : Config) (t_np phi_initial phi_prime phi_double_prime phi_triple_prime : list R) :
  0 < epsilon config ->
  forall x,
    In x (snd (compute_initial_schwarzian config t_np phi_initial phi_prime
                                          phi_double_prime phi_triple_prime)) ->
    x <> None.
Proof.
  intros Heps x Hin. apply In_nth_error in Hin. destruct Hin as [i Hi].
  unfold compute_initial_schwarzian in Hi. cbn [snd] in Hi.
  repeat (rewrite ?nth_error_map2, ?nth_error_map in Hi).
  destruct (nth_error phi_triple_prime i) as [p3|]; cbn [option_map] in Hi; [|discriminate].
  destruct (nth_error phi_prime i) as [p1|]; cbn [option_map] in Hi; [|discriminate].
  destruct (nth_error phi_double_prime i) as [p2|]; cbn [option_map] in Hi; [|discriminate].
  injection Hi as <-.
  pose proof (f_prime_safe_clip_nonzero config (1 + p1) Heps).
  unfold_np.
  destruct (Req_dec_T (f_prime_safe_clip config (1 + p1)) 0); [contradiction|].
  discriminate.
Qed.

(** The run of [main] when no call raises: all six stages return, in order,
    and the series handed to [plot_solutions] are those of the
    reconstruction. *)
Lemma main_success_path
    (config : Config)
    (solve_ivp : (R -> state -> deriv) -> R * R -> state -> string -> list R -> R -> R
                 -> result OdeResult)
    (degenerate_perturbations : list R -> R -> result perturbations)
    (natural_cubic_spline : list R -> list R -> R -> R)
    (t_np phi_initial phi_prime phi_double_prime phi_triple_prime
          dilaton_initial dilaton_prime_initial : list R)
    (S0_spline : R -> R) (f0 f1 f2 d0 d1 : R) (sol : OdeResult) :
  linspace (t_start config) (t_end config) (N config) = inr t_np ->
  compute_initial_perturbations degenerate_perturbations t_np (delta config)
  = inr (phi_initial, phi_prime, phi_double_prime, phi_triple_prime,
         dilaton_initial, dilaton_prime_initial) ->
  let initial := compute_initial_schwarzian config t_np phi_initial phi_prime
                                            phi_double_prime phi_triple_prime in
  CubicSpline natural_cubic_spline t_np (snd initial) = inr S0_spline ->
  index0 (fst (fst (fst initial))) = inr f0 ->
  index0 (snd (fst (fst initial))) = inr f1 ->
  index0 (snd (fst initial)) = inr f2 ->
  index0 dilaton_initial = inr d0 ->
  index0 dilaton_prime_initial = inr d1 ->
  solve_equations_of_motion config solve_ivp t_np (f0, f1, f2, d0, d1) S0_spline = inr sol ->
  main config solve_ivp degenerate_perturbations natural_cubic_spline
  = ([Grid; SymbolicDerivation; SchwarzianInit; Interpolation; Integration; Reconstruction],
     inr (process_and_plot_solution config t_np sol phi_initial (snd initial)
                                    (fst (fst (fst initial))) S0_spline)).
Proof.
  intros Hgrid Hpert initial Hspline H0 H1 H2 H3 H4 Hsol.
  unfold main. rewrite Hgrid. cbn [call bind app]. rewrite Hpert. cbn [call bind app].
  subst initial.
  destruct (compute_initial_schwarzian config t_np phi_initial phi_prime
                                       phi_double_prime phi_triple_prime)
    as [[[f_initial f_prime_initial] f_double_prime_initial] S_initial].
  cbn [fst snd] in *. cbn [call bind app].
  rewrite Hspline. cbn [call bind app lift].
  rewrite H0, H1, H2, H3, H4. cbn [call bind app lift].
  rewrite Hsol. reflexivity.
Qed.

(** On the grid of two samples [[0; 3]], with an integrator that succeeds,
    the run goes through all six stages. *)
Lemma main_two_samples_completes
    (degenerate_perturbations : list R -> R -> result perturbations)
    (natural_cubic_spline : list R -> list R -> R -> R) :
  exists series,
    main config_two_samples succeeding_solve_ivp degenerate_perturbations
         natural_cubic_spline
    = ([Grid; SymbolicDerivation; SchwarzianInit; Interpolation; Integration; Reconstruction],
       inr series)
    /\ List.length (plot_S_evolved series) = 2%nat.
Proof.
  pose proof float64_eps_pos as Hpos.
  set (g := fun i : nat => 0 + INR i * ((3 - 0) / INR (2 - 1))).
  assert (Hg0 : g 0%nat = 0) by (unfold g; cbn [INR Nat.sub]; field).
  assert (Hg1 : g 1%nat = 3) by (unfold g; cbn [INR Nat.sub]; field).
  assert (Hgrid : linspace (t_start config_two_samples) (t_end config_two_samples)
                           (N config_two_samples) = inr [g 0%nat; g 1%nat]).
  { rewrite linspace_samples by (cbn [N config_two_samples]; lia). reflexivity. }
  pose proof (compute_initial_perturbations_closed_form degenerate_perturbations
                [g 0%nat; g 1%nat] (delta config_two_samples) (g 0%nat) (g 1%nat)
                eq_refl eq_refl) as Hpert.
  cbv zeta in Hpert.
  specialize (Hpert ltac:(rewrite Hg0, Hg1; lra)
                    ltac:(cbn [delta config_two_samples]; lra)).
  match type of Hpert with
  | _ = inr (?a, ?b, ?c, ?d, ?e, ?f) =>
      set (phi_initial := a) in *; set (phi_prime := b) in *;
      set (phi_double_prime := c) in *; set (phi_triple_prime := d) in *;
      set (dilaton_initial := e) in *; set (dilaton_prime_initial := f) in *
  end.
  set (initial := compute_initial_schwarzian config_two_samples [g 0%nat; g 1%nat]
                    phi_initial phi_prime phi_double_prime phi_triple_prime).
  destruct (all_finite_of_finite (snd initial)) as (rs & Hrs & Hlen).
  { apply initial_profile_finite. exact Hpos. }
  assert (Hlen2 : List.length rs = 2%nat) by (rewrite Hlen; reflexivity).
  assert (Hspline : CubicSpline natural_cubic_spline [g 0%nat; g 1%nat] (snd initial)
                    = inr (natural_cubic_spline [g 0%nat; g 1%nat] rs)).
  { unfold CubicSpline. rewrite Hrs, Hlen2.
    cbn [List.length Nat.leb Nat.eqb strictly_increasing andb].
    unfold gt. destruct (Rlt_dec (g 0%nat) (g 1%nat)) as [_|Hn]; [reflexivity|].
    exfalso. apply Hn. rewrite Hg0, Hg1. lra. }
  eexists. split.
  - eapply (main_success_path config_two_samples succeeding_solve_ivp
              degenerate_perturbations natural_cubic_spline
              [g 0%nat; g 1%nat] phi_initial phi_prime phi_double_prime phi_triple_prime
              dilaton_initial dilaton_prime_initial _ _ _ _ _ _ _ Hgrid Hpert Hspline);
      reflexivity.
  - unfold process_and_plot_solution. cbn [plot_S_evolved].
    rewrite !length_map2, !length_map. reflexivity.
Qed.

(** * Further properties of the pipeline *)

(** ** The initial perturbations *)

(** X2: on a grid of non-zero span and for a non-zero amplitude,
    [compute_initial_perturbations] returns the samples of
    [delta sin(omega t)], [delta cos(omega t)] and of their derivatives in
    closed form, with [omega = 2 pi / (t_np[-1] - t_np[0])]. *)
Theorem X2_initial_perturbations_closed_form
    (degenerate_perturbations : list R -> R -> result perturbations)
    (t_np : list R) (delta t_first t_last : R) :
  first t_np = Some t_first ->
  last_elt t_np = Some t_last ->
  t_last - t_first <> 0 ->
  delta <> 0 ->
  let omega := 2 * PI / (t_last - t_first) in
  compute_initial_perturbations degenerate_perturbations t_np delta
  = inr (map (fun t => delta * sin (omega * t)) t_np,
         map (fun t => delta * omega * cos (omega * t)) t_np,
         map (fun t => - delta * omega ^ 2 * sin (omega * t)) t_np,
         map (fun t => - delta * omega ^ 3 * cos (omega * t)) t_np,
         map (fun t => delta * cos (omega * t)) t_np,
         map (fun t => - delta * omega * sin (omega * t)) t_np).
Proof.
  intros Hf Hl Hspan Hdelta.
  exact (compute_initial_perturbations_closed_form degenerate_perturbations
           t_np delta t_first t_last Hf Hl Hspan Hdelta).
Qed.

Lemma X2_initial_perturbations_witness :
  first [0; 3] = Some 0
  /\ last_elt [0; 3] = Some 3
  /\ 3 - 0 <> 0
  /\ 0.01 <> 0
  /\ compute_initial_perturbations no_degenerate_perturbations [0; 3] 0.01
     = inr (map (fun t => 0.01 * sin (2 * PI / (3 - 0) * t)) [0; 3],
            map (fun t => 0.01 * (2 * PI / (3 - 0)) * cos (2 * PI / (3 - 0) * t)) [0; 3],
            map (fun t => - (0.01) * (2 * PI / (3 - 0)) ^ 2 * sin (2 * PI / (3 - 0) * t)) [0; 3],
            map (fun t => - (0.01) * (2 * PI / (3 - 0)) ^ 3 * cos (2 * PI / (3 - 0) * t)) [0; 3],
            map (fun t => 0.01 * cos (2 * PI / (3 - 0) * t)) [0; 3],
            map (fun t => - (0.01) * (2 * PI / (3 - 0)) * sin (2 * PI / (3 - 0) * t)) [0; 3]).
Proof.
  assert (H1 : 3 - 0 <> 0) by lra.
  assert (H2 : 0.01 <> 0) by lra.
  split; [reflexivity|]. split; [reflexivity|]. split; [exact H1|]. split; [exact H2|].
  exact (X2_initial_perturbations_closed_form no_degenerate_perturbations [0; 3] 0.01 0 3
           eq_refl eq_refl H1 H2).
Defined.

(** X3: the derivative arrays are exact.  The arrays returned are the
    samples of functions [phi], [phi1], [phi2], [phi3], [chi], [chi1] with
    [phi = delta sin(omega t)] and [chi = delta cos(omega t)], and at every
    time [phi1] is the derivative of [phi], [phi2] of [phi1], [phi3] of
    [phi2] and [chi1] of [chi]. *)
Theorem X3_initial_derivatives_exact
    (degenerate_perturbations : list R -> R -> result perturbations)
    (t_np : list R) (delta t_first t_last : R) :
  first t_np = Some t_first ->
  last_elt t_np = Some t_last ->
  t_last - t_first <> 0 ->
  delta <> 0 ->
  let omega := 2 * PI / (t_last - t_first) in
  exists phi1 phi2 phi3 chi1 : R -> R,
    compute_initial_perturbations degenerate_perturbations t_np delta
    = inr (map (fun t => delta * sin (omega * t)) t_np,
           map phi1 t_np, map phi2 t_np, map phi3 t_np,
           map (fun t => delta * cos (omega * t)) t_np,
           map chi1 t_np)
    /\ forall t,
         derivable_pt_lim (fun s => delta * sin (omega * s)) t (phi1 t)
         /\ derivable_pt_lim phi1 t (phi2 t)
         /\ derivable_pt_lim phi2 t (phi3 t)
         /\ derivable_pt_lim (fun s => delta * cos (omega * s)) t (chi1 t).
Proof.
  intros Hf Hl Hspan Hdelta omega.
  set (phi_sym := Sym.Mul (Sym.Num delta)
                          (Sym.Sin (Sym.Mul (Sym.Num omega) Sym.Symbol_t))).
  set (chi_sym := Sym.Mul (Sym.Num delta)
                          (Sym.Cos (Sym.Mul (Sym.Num omega) Sym.Symbol_t))).
  exists (fun t => Sym.lambdify (Sym.diff phi_sym) t),
         (fun t => Sym.lambdify (Sym.diff (Sym.diff phi_sym)) t),
         (fun t => Sym.lambdify (Sym.diff (Sym.diff (Sym.diff phi_sym))) t),
         (fun t => Sym.lambdify (Sym.diff chi_sym) t).
  split.
  - unfold compute_initial_perturbations. rewrite Hf, Hl.
    destruct (Req_dec_T (t_last - t_first) 0) as [Hz|_]; [contradiction|].
    destruct (Req_dec_T delta 0) as [Hz|_]; [contradiction|].
    reflexivity.
  - intros t. repeat split.
    + exact (diff_sound phi_sym t).
    + exact (diff_sound (Sym.diff phi_sym) t).
    + exact (diff_sound (Sym.diff (Sym.diff phi_sym)) t).
    + exact (diff_sound chi_sym t).
Qed.

Lemma X3_initial_derivatives_witness :
  first [0; 3] = Some 0
  /\ last_elt [0; 3] = Some 3
  /\ 3 - 0 <> 0
  /\ 0.01 <> 0
  /\ exists phi1 phi2 phi3 chi1 : R -> R,
       compute_initial_perturbations no_degenerate_perturbations [0; 3] 0.01
       = inr (map (fun t => 0.01 * sin (2 * PI / (3 - 0) * t)) [0; 3],
              map phi1 [0; 3], map phi2 [0; 3], map phi3 [0; 3],
              map (fun t => 0.01 * cos (2 * PI / (3 - 0) * t)) [0; 3],
              map chi1 [0; 3])
       /\ forall t,
            derivable_pt_lim (fun s => 0.01 * sin (2 * PI / (3 - 0) * s)) t (phi1 t)
            /\ derivable_pt_lim phi1 t (phi2 t)
            /\ derivable_pt_lim phi2 t (phi3 t)
            /\ derivable_pt_lim (fun s => 0.01 * cos (2 * PI / (3 - 0) * s)) t (chi1 t).
Proof.
  assert (H1 : 3 - 0 <> 0) by lra.
  assert (H2 : 0.01 <> 0) by lra.
  split; [reflexivity|]. split; [reflexivity|]. split; [exact H1|]. split; [exact H2|].
  exact (X3_initial_derivatives_exact no_degenerate_perturbations [0; 3] 0.01 0 3
           eq_refl eq_refl H1 H2).
Defined.

(** ** The initial Schwarzian profile *)

Lemma float64_eps_le_half : float64_eps <= / 2.
Proof.
  unfold float64_eps. apply Rinv_le_contravar; [lra|].
  change (2 ^ 52) with (2 * 2 ^ 51).
  assert (1 <= 2 ^ 51) by (apply pow_R1_Rle; lra).
  lra.
Qed.

(** X5: where the first derivative [f' = 1 + phi'] is positive and at least
    [epsilon], the guard is transparent: the profile holds the Schwarzian
    derivative [f'''/f' - 1.5 (f''/f')^2] itself. *)
Theorem X5_initial_guard_transparent
    (config : Config) (t_np phi_initial phi_prime phi_double_prime phi_triple_prime : list R)
    (i : nat) (p1 p2 p3 : R) :
  nth_error phi_prime i = Some p1 ->
  nth_error phi_double_prime i = Some p2 ->
  nth_error phi_triple_prime i = Some p3 ->
  0 < 1 + p1 ->
  epsilon config <= 1 + p1 ->
  nth_error (snd (compute_initial_schwarzian config t_np phi_initial phi_prime
                                             phi_double_prime phi_triple_prime)) i
  = Some (finite (unguarded_schwarzian (1 + p1) p2 p3)).
Proof.
  intros H1 H2 H3 Hpos Hge.
  rewrite (compute_initial_schwarzian_nth config t_np phi_initial phi_prime
             phi_double_prime phi_triple_prime i p1 p2 p3 H1 H2 H3).
  unfold S_initial_at, schwarzian_initial_path.
  rewrite (proj1 (f_prime_safe_clip_lower config (1 + p1)) Hge).
  rewrite schwarzian_at_finite by lra.
  unfold unguarded_schwarzian, finite. do 2 f_equal. ring.
Qed.

Lemma X5_initial_guard_witness :
  nth_error [0.5] 0 = Some 0.5
  /\ nth_error [2] 0 = Some 2
  /\ nth_error [3] 0 = Some 3
  /\ 0 < 1 + 0.5
  /\ epsilon default_config <= 1 + 0.5
  /\ nth_error (snd (compute_initial_schwarzian default_config [0] [0] [0.5] [2] [3])) 0
     = Some (finite (unguarded_schwarzian (1 + 0.5) 2 3)).
Proof.
  assert (Hpos : 0 < 1 + 0.5) by lra.
  assert (Hge : epsilon default_config <= 1 + 0.5)
    by (cbn [epsilon default_config]; pose proof float64_eps_lt_1; lra).
  split; [reflexivity|]. split; [reflexivity|]. split; [reflexivity|].
  split; [exact Hpos|]. split; [exact Hge|].
  exact (X5_initial_guard_transparent default_config [0] [0] [0.5] [2] [3] 0 0.5 2 3
           eq_refl eq_refl eq_refl Hpos Hge).
Defined.

(** X6: for a perturbation of small amplitude, [|delta omega| <= 1 - epsilon],
    the guard changes no sample of the initial first derivative computed from
    [compute_initial_perturbations]: [f_prime_safe] is [f_prime_initial]. *)
Theorem X6_small_amplitude_never_clipped
    (config : Config)
    (degenerate_perturbations : list R -> R -> result perturbations)
    (t_np : list R) (t_first t_last : R) :
  first t_np = Some t_first ->
  last_elt t_np = Some t_last ->
  t_last - t_first <> 0 ->
  delta config <> 0 ->
  Rabs (delta config * (2 * PI / (t_last - t_first))) <= 1 - epsilon config ->
  exists phi_initial phi_prime phi_double_prime phi_triple_prime
         dilaton_initial dilaton_prime_initial,
    compute_initial_perturbations degenerate_perturbations t_np (delta config)
    = inr (phi_initial, phi_prime, phi_double_prime, phi_triple_prime,
           dilaton_initial, dilaton_prime_initial)
    /\ let f_prime_initial :=
         snd (fst (fst (compute_initial_schwarzian config t_np phi_initial phi_prime
                                                   phi_double_prime phi_triple_prime))) in
       map (f_prime_safe_clip config) f_prime_initial = f_prime_initial.
Proof.
  intros Hf Hl Hspan Hdelta Hsmall.
  pose proof (compute_initial_perturbations_closed_form degenerate_perturbations
                t_np (delta config) t_first t_last Hf Hl Hspan Hdelta) as Hc.
  cbv zeta in Hc.
  set (omega := 2 * PI / (t_last - t_first)) in *.
  do 6 eexists. split; [exact Hc|].
  cbv zeta. unfold compute_initial_schwarzian. cbn [fst snd].
  rewrite !map_map. apply map_ext. intros t.
  apply (proj1 (f_prime_safe_clip_lower config _)).
  pose proof (COS_bound (omega * t)) as Hcos.
  assert (Hprod : Rabs (delta config * omega * cos (omega * t)) <= 1 - epsilon config).
  { rewrite Rabs_mult.
    assert (Rabs (cos (omega * t)) <= 1) by (apply Rabs_le; exact Hcos).
    pose proof (Rabs_pos (delta config * omega)).
    apply Rle_trans with (Rabs (delta config * omega) * 1); [|lra].
    apply Rmult_le_compat_l; assumption. }
  pose proof (Rle_abs (- (delta config * omega * cos (omega * t)))) as Ha.
  rewrite Rabs_Ropp in Ha. lra.
Qed.

Lemma X6_small_amplitude_witness :
  first [0; 3] = Some 0
  /\ last_elt [0; 3] = Some 3
  /\ 3 - 0 <> 0
  /\ delta default_config <> 0
  /\ Rabs (delta default_config * (2 * PI / (3 - 0))) <= 1 - epsilon default_config
  /\ exists phi_initial phi_prime phi_double_prime phi_triple_prime
            dilaton_initial dilaton_prime_initial,
       compute_initial_perturbations no_degenerate_perturbations [0; 3]
                                     (delta default_config)
       = inr (phi_initial, phi_prime, phi_double_prime, phi_triple_prime,
              dilaton_initial, dilaton_prime_initial)
       /\ let f_prime_initial :=
            snd (fst (fst (compute_initial_schwarzian default_config [0; 3] phi_initial
                             phi_prime phi_double_prime phi_triple_prime))) in
          map (f_prime_safe_clip default_config) f_prime_initial = f_prime_initial.
Proof.
  assert (H1 : 3 - 0 <> 0) by lra.
  assert (H2 : delta default_config <> 0) by (cbn [delta default_config]; lra).
  assert (H3 : Rabs (delta default_config * (2 * PI / (3 - 0)))
               <= 1 - epsilon default_config).
  { cbn [delta epsilon default_config].
    pose proof PI_RGT_0 as Hp. pose proof PI_4 as Hp4.
    pose proof float64_eps_le_half as He.
    rewrite Rabs_right; lra. }
  split; [reflexivity|]. split; [reflexivity|]. split; [exact H1|].
  split; [exact H2|]. split; [exact H3|].
  exact (X6_small_amplitude_never_clipped default_config no_degenerate_perturbations
           [0; 3] 0 3 eq_refl eq_refl H1 H2 H3).
Defined.

(** X7: with a positive [epsilon], the initial profile vanishes wherever the
    second and third derivative vanish, whatever the first derivative is
    (maps that are affine there have Schwarzian 0). *)
Theorem X7_affine_samples_have_zero_schwarzian
    (config : Config) (t_np phi_initial phi_prime phi_double_prime phi_triple_prime : list R)
    (i : nat) (p1 : R) :
  0 < epsilon config ->
  nth_error phi_prime i = Some p1 ->
  nth_error phi_double_prime i = Some 0 ->
  nth_error phi_triple_prime i = Some 0 ->
  nth_error (snd (compute_initial_schwarzian config t_np phi_initial phi_prime
                                             phi_double_prime phi_triple_prime)) i
  = Some (finite 0).
Proof.
  intros Heps H1 H2 H3.
  rewrite (compute_initial_schwarzian_nth config t_np phi_initial phi_prime
             phi_double_prime phi_triple_prime i p1 0 0 H1 H2 H3).
  unfold S_initial_at, schwarzian_initial_path.
  rewrite schwarzian_at_finite by (apply f_prime_safe_clip_nonzero; exact Heps).
  unfold finite, Rdiv. do 2 f_equal. ring.
Qed.

Lemma X7_affine_samples_witness :
  0 < epsilon default_config
  /\ nth_error [-5] 0 = Some (-5)
  /\ nth_error [0] 0 = Some 0
  /\ nth_error (snd (compute_initial_schwarzian default_config [0] [0] [-5] [0] [0])) 0
     = Some (finite 0).
Proof.
  split; [exact float64_eps_pos|]. split; [reflexivity|]. split; [reflexivity|].
  exact (X7_affine_samples_have_zero_schwarzian default_config [0] [0] [-5] [0] [0] 0 (-5)
           float64_eps_pos eq_refl eq_refl eq_refl).
Defined.

(** X9: on aligned arrays of length [n], each of the four arrays that
    [compute_initial_schwarzian] returns has length [n]. *)
Theorem X9_initial_arrays_aligned
    (config : Config) (t_np phi_initial phi_prime phi_double_prime phi_triple_prime : list R)
    (n : nat) :
  List.length t_np = n ->
  List.length phi_initial = n ->
  List.length phi_prime = n ->
  List.length phi_double_prime = n ->
  List.length phi_triple_prime = n ->
  let initial := compute_initial_schwarzian config t_np phi_initial phi_prime
                                            phi_double_prime phi_triple_prime in
  List.length (fst (fst (fst initial))) = n
  /\ List.length (snd (fst (fst initial))) = n
  /\ List.length (snd (fst initial)) = n
  /\ List.length (snd initial) = n.
Proof.
  intros Ht H0 H1 H2 H3. cbv zeta. unfold compute_initial_schwarzian. cbn [fst snd].
  repeat (rewrite ?length_map2, ?length_map).
  rewrite Ht, H0, H1, H2, H3, !Nat.min_id. repeat split; reflexivity.
Qed.

Lemma X9_initial_arrays_witness :
  List.length [0; 3] = 2%nat
  /\ List.length [1; 2] = 2%nat
  /\ let initial := compute_initial_schwarzian default_config [0; 3] [1; 2] [1; 2]
                                               [1; 2] [1; 2] in
     List.length (fst (fst (fst initial))) = 2%nat
     /\ List.length (snd (fst (fst initial))) = 2%nat
     /\ List.length (snd (fst initial)) = 2%nat
     /\ List.length (snd initial) = 2%nat.
Proof.
  split; [reflexivity|]. split; [reflexivity|].
  exact (X9_initial_arrays_aligned default_config [0; 3] [1; 2] [1; 2] [1; 2] [1; 2] 2
           eq_refl eq_refl eq_refl eq_refl eq_refl).
Defined.

(** ** The guards *)

Lemma f_prime_safe_where_nonzero (config : Config) (x : R) :
  x <> 0 -> f_prime_safe_where config x <> 0.
Proof. intros Hx. guard_cases; lra. Qed.

(** X10: both guards are idempotent, and for a positive [epsilon] the guard
    of the reconstruction leaves every value the guard of the integrator
    produced unchanged. *)
Theorem X10_guards_idempotent (config : Config) (x : R) :
  f_prime_safe_clip config (f_prime_safe_clip config x) = f_prime_safe_clip config x
  /\ f_prime_safe_where config (f_prime_safe_where config x) = f_prime_safe_where config x
  /\ (0 < epsilon config ->
      f_prime_safe_where config (f_prime_safe_clip config x) = f_prime_safe_clip config x).
Proof.
  split; [|split].
  - guard_cases; lra.
  - unfold f_prime_safe_where, where_, gt, sign.
    destruct (Rlt_dec (epsilon config) (Rabs x)) as [Hbig|Hsmall].
    + destruct (Rlt_dec (epsilon config) (Rabs x)); [reflexivity | contradiction].
    + destruct (Rlt_dec x 0) as [Hneg|Hnn]; [|destruct (Rlt_dec 0 x) as [Hpos|Hnp]].
      * assert (Hx : Rabs x = - x) by (apply Rabs_left; exact Hneg).
        assert (He : 0 < epsilon config) by lra.
        replace (-1 * epsilon config) with (- epsilon config) by ring.
        rewrite Rabs_Ropp, (Rabs_right (epsilon config)) by lra.
        destruct (Rlt_dec (epsilon config) (epsilon config)); [lra|].
        destruct (Rlt_dec (- epsilon config) 0); [ring | lra].
      * assert (Hx : Rabs x = x) by (apply Rabs_right; lra).
        assert (He : 0 < epsilon config) by lra.
        rewrite Rmult_1_l, (Rabs_right (epsilon config)) by lra.
        destruct (Rlt_dec (epsilon config) (epsilon config)); [lra|].
        destruct (Rlt_dec (epsilon config) 0); [lra|].
        destruct (Rlt_dec 0 (epsilon config)); [ring | lra].
      * rewrite Rmult_0_l, Rabs_R0.
        assert (Hx : x = 0) by lra. subst x. rewrite Rabs_R0 in Hsmall.
        destruct (Rlt_dec (epsilon config) 0); [lra|].
        destruct (Rlt_dec 0 0); [lra|].
        destruct (Rlt_dec 0 0); [lra | ring].
  - intros Heps.
    pose proof (f_prime_safe_clip_ge config x) as Hge.
    rewrite f_prime_safe_where_positive by lra.
    guard_cases; lra.
Qed.

(** X11: the guard of the reconstruction is an odd function, so the evolved
    Schwarzian at a grid point is the same for a trajectory and for its
    mirror image [(-f', -f'', -phi')]. *)
Theorem X11_reconstruction_reflection
    (config : Config) (S0_t temperature f1 f2 p1 : R) :
  f_prime_safe_where config (- f1) = - f_prime_safe_where config f1
  /\ S_evolved_at config S0_t temperature (- f1) (- f2) (- p1)
     = S_evolved_at config S0_t temperature f1 f2 p1.
Proof.
  assert (Hodd : f_prime_safe_where config (- f1) = - f_prime_safe_where config f1).
  { unfold f_prime_safe_where, where_, gt, sign. rewrite Rabs_Ropp.
    destruct (Rlt_dec (epsilon config) (Rabs f1)); [reflexivity|].
    destruct (Rlt_dec (- f1) 0), (Rlt_dec f1 0), (Rlt_dec 0 (- f1)), (Rlt_dec 0 f1);
      try lra. }
  split; [exact Hodd|].
  rewrite !S_evolved_at_is_source, Hodd. unfold_np.
  destruct (Req_dec_T (f_prime_safe_where config f1) 0) as [Hz|Hnz].
  - destruct (Req_dec_T (- f_prime_safe_where config f1) 0) as [_|Hn];
      [reflexivity | exfalso; apply Hn; rewrite Hz; ring].
  - destruct (Req_dec_T (- f_prime_safe_where config f1) 0) as [Hz|_];
      [exfalso; apply Hnz; lra |].
    f_equal. field. exact Hnz.
Qed.

(** ** The right-hand side and the reconstruction *)

(** X12: for a positive first derivative the third derivative that the
    reconstruction rebuilds is the one the integrator right-hand side
    returns for the same state and time. *)
Theorem X12_reconstruction_matches_right_hand_side
    (config : Config) (S0_spline : R -> R) (t f f1 f2 phi phi1 : R) :
  0 < f1 ->
  f_triple_prime_evolved_at
    config (S0_spline t)
    (temperature_perturbation t (delta_T config) (omega_T config)) f1 f2 phi1
  = dv_f_double_prime (equations_of_motion config S0_spline t (f, f1, f2, phi, phi1)).
Proof.
  intros Hpos. unfold f_triple_prime_evolved_at, equations_of_motion.
  cbn [dv_f_double_prime].
  rewrite (f_prime_safe_where_positive config f1 Hpos). reflexivity.
Qed.

Lemma X12_reconstruction_matches_witness :
  0 < 1
  /\ f_triple_prime_evolved_at
       default_config (zero_source 2)
       (temperature_perturbation 2 (delta_T default_config) (omega_T default_config))
       1 0 0.5
     = dv_f_double_prime
         (equations_of_motion default_config zero_source 2 (2, 1, 0, 0.1, 0.5)).
Proof.
  split; [exact Rlt_0_1|].
  exact (X12_reconstruction_matches_right_hand_side default_config zero_source
           2 2 1 0 0.1 0.5 Rlt_0_1).
Defined.

(** X13: a non-positive [epsilon] disables the guard of the integrator: at
    [f' = 0] the right-hand side then returns a third derivative that is
    not a finite number. *)
Theorem X13_guard_needs_positive_epsilon
    (config : Config) (S0_spline : R -> R) (t f f2 phi phi1 : R) :
  epsilon config <= 0 ->
  dv_f_double_prime (equations_of_motion config S0_spline t (f, 0, f2, phi, phi1)) = None.
Proof.
  intros Heps. unfold equations_of_motion. cbn [dv_f_double_prime].
  assert (Hz : f_prime_safe_clip config 0 = 0) by (guard_cases; lra).
  rewrite Hz. unfold_np.
  destruct (Req_dec_T 0 0); [reflexivity | contradiction].
Qed.

Lemma X13_guard_needs_positive_epsilon_witness :
  epsilon config_zero_epsilon <= 0
  /\ dv_f_double_prime
       (equations_of_motion config_zero_epsilon zero_source 1 (1, 0, 2, 0, 0)) = None.
Proof.
  assert (H : epsilon config_zero_epsilon <= 0) by (cbn [epsilon config_zero_epsilon]; lra).
  split; [exact H|].
  exact (X13_guard_needs_positive_epsilon config_zero_epsilon zero_source 1 1 2 0 0 H).
Defined.

(** X17: when the grid and the five rows of the trajectory have length [n],
    every series the reconstruction computes has length [n], and the rows
    and the initial series are handed on unchanged. *)
Theorem X17_reconstruction_series_aligned
    (config : Config) (t_np : list R) (sol : OdeResult) (phi_initial : list R)
    (S_initial : list npfloat) (f_initial : list R) (S0_spline : R -> R) (n : nat) :
  List.length t_np = n ->
  (forall k, (k < 5)%nat -> List.length (row sol k) = n) ->
  let series := process_and_plot_solution config t_np sol phi_initial S_initial
                                          f_initial S0_spline in
  List.length (plot_S_evolved series) = n
  /\ List.length (plot_phi_evolved_from_f series) = n
  /\ List.length (plot_temperature series) = n
  /\ plot_f_evolved series = row sol 0
  /\ plot_f_prime_evolved series = row sol 1
  /\ plot_phi_evolved series = row sol 3
  /\ plot_phi_initial series = phi_initial
  /\ plot_S_initial series = S_initial
  /\ plot_f_initial series = f_initial.
Proof.
  intros Ht Hrows. cbv zeta. unfold process_and_plot_solution.
  cbn [plot_S_evolved plot_phi_evolved_from_f plot_temperature plot_f_evolved
       plot_f_prime_evolved plot_phi_evolved plot_phi_initial plot_S_initial
       plot_f_initial].
  repeat (rewrite ?length_map2, ?length_map).
  rewrite Ht, (Hrows 0%nat), (Hrows 1%nat), (Hrows 2%nat), (Hrows 4%nat) by lia.
  rewrite !Nat.min_id. repeat split; reflexivity.
Qed.

Lemma rows_of_sol_f_prime_zero (k : nat) :
  (k < 5)%nat -> List.length (row sol_f_prime_zero k) = 2%nat.
Proof.
  intros Hk. do 5 (destruct k as [|k]; [reflexivity|]). lia.
Qed.

Lemma X17_reconstruction_series_witness :
  List.length [0; 3] = 2%nat
  /\ (forall k, (k < 5)%nat -> List.length (row sol_f_prime_zero k) = 2%nat)
  /\ List.length (plot_S_evolved
                    (process_and_plot_solution default_config [0; 3] sol_f_prime_zero
                                               [] [] [] zero_source)) = 2%nat.
Proof.
  split; [reflexivity|]. split; [exact rows_of_sol_f_prime_zero|].
  exact (proj1 (X17_reconstruction_series_aligned default_config [0; 3] sol_f_prime_zero
                  [] [] [] zero_source 2 eq_refl rows_of_sol_f_prime_zero)).
Defined.

(** ** Integration *)

(** X18: a result that [solve_equations_of_motion] returns is the object
    [solve_ivp] returned for the right-hand side of this configuration, the
    span from the first to the last grid time, the method Radau, the grid as
    evaluation times and both tolerances 1e-8, and its success flag is set. *)
Theorem X18_returned_result_is_the_successful_one
    (config : Config)
    (solve_ivp : (R -> state -> deriv) -> R * R -> state -> string -> list R -> R -> R
                 -> result OdeResult)
    (t_np : list R) (initial_conditions : state) (S0_spline : R -> R) (sol : OdeResult) :
  solve_equations_of_motion config solve_ivp t_np initial_conditions S0_spline = inr sol ->
  success sol = true
  /\ exists t0 t1,
       first t_np = Some t0
       /\ last_elt t_np = Some t1
       /\ solve_ivp (equations_of_motion config S0_spline) (t0, t1)
                    initial_conditions "Radau"%string t_np 1e-8 1e-8 = inr sol.
Proof.
  exact (solve_equations_of_motion_returns config solve_ivp t_np initial_conditions
           S0_spline sol).
Qed.

Lemma X18_returned_result_witness :
  exists sol,
    solve_equations_of_motion default_config (solve_ivp_returning [[0; 3]]) [0; 3]
                              (0, 1, 0, 0.01, 0) zero_source = inr sol
    /\ success sol = true
    /\ solve_ivp_returning [[0; 3]] (equations_of_motion default_config zero_source)
                           (0, 3) (0, 1, 0, 0.01, 0) "Radau"%string [0; 3] 1e-8 1e-8
       = inr sol.
Proof.
  eexists. split; [reflexivity|].
  destruct (X18_returned_result_is_the_successful_one default_config
              (solve_ivp_returning [[0; 3]]) [0; 3] (0, 1, 0, 0.01, 0) zero_source
              _ eq_refl) as (Hs & _).
  split; [exact Hs | reflexivity].
Defined.

(** ** Runs of [main] *)

(** X21: whenever [main] hands series to [plot_solutions], all six stages
    have returned, in order, the grid is the one [np.linspace] returned, and
    the evolved curves are rows of the object that [solve_ivp] returned, with
    its success flag set, for the right-hand side of this configuration on
    that grid: no series is ever plotted from a failed integration. *)
Theorem X21_plotted_series_come_from_a_successful_run
    (config : Config)
    (solve_ivp : (R -> state -> deriv) -> R * R -> state -> string -> list R -> R -> R
                 -> result OdeResult)
    (degenerate_perturbations : list R -> R -> result perturbations)
    (natural_cubic_spline : list R -> list R -> R -> R)
    (done : list stage) (series : PlotSeries) :
  main config solve_ivp degenerate_perturbations natural_cubic_spline
  = (done, inr series) ->
  done = [Grid; SymbolicDerivation; SchwarzianInit; Interpolation; Integration;
          Reconstruction]
  /\ linspace (t_start config) (t_end config) (N config) = inr (plot_t_np series)
  /\ exists S0_spline initial_conditions t0 t1 sol,
       first (plot_t_np series) = Some t0
       /\ last_elt (plot_t_np series) = Some t1
       /\ solve_ivp (equations_of_motion config S0_spline) (t0, t1) initial_conditions
                    "Radau"%string (plot_t_np series) 1e-8 1e-8 = inr sol
       /\ success sol = true
       /\ plot_f_evolved series = row sol 0
       /\ plot_f_prime_evolved series = row sol 1
       /\ plot_phi_evolved series = row sol 3.
Proof.
  unfold main.
  destruct (linspace (t_start config) (t_end config) (N config)) as [e|t_np];
    cbn [call bind app]; [discriminate|].
  destruct (compute_initial_perturbations degenerate_perturbations t_np (delta config))
    as [e|[[[[[phi_initial phi_prime] phi_double_prime] phi_triple_prime]
             dilaton_initial] dilaton_prime_initial]];
    cbn [call bind app]; [discriminate|].
  destruct (compute_initial_schwarzian config t_np phi_initial phi_prime
                                       phi_double_prime phi_triple_prime)
    as [[[f_initial f_prime_initial] f_double_prime_initial] S_initial].
  cbn [call bind app].
  destruct (CubicSpline natural_cubic_spline t_np S_initial) as [e|S0_spline];
    cbn [call bind app]; [discriminate|].
  unfold lift.
  destruct (index0 f_initial) as [e|f0]; cbn [bind app]; [discriminate|].
  destruct (index0 f_prime_initial) as [e|f1]; cbn [bind app]; [discriminate|].
  destruct (index0 f_double_prime_initial) as [e|f2]; cbn [bind app]; [discriminate|].
  destruct (index0 dilaton_initial) as [e|d0]; cbn [bind app]; [discriminate|].
  destruct (index0 dilaton_prime_initial) as [e|d1]; cbn [bind app]; [discriminate|].
  destruct (solve_equations_of_motion config solve_ivp t_np (f0, f1, f2, d0, d1) S0_spline)
    as [e|sol] eqn:Hsol; cbn [call bind app]; [discriminate|].
  intros Heq. injection Heq as <- <-.
  split; [reflexivity|]. split; [reflexivity|].
  destruct (solve_equations_of_motion_returns config solve_ivp t_np (f0, f1, f2, d0, d1)
              S0_spline sol Hsol) as (Hs & t0 & t1 & Hf & Hl & Hivp).
  exists S0_spline, (f0, f1, f2, d0, d1), t0, t1, sol.
  cbn [plot_t_np plot_f_evolved plot_f_prime_evolved plot_phi_evolved
       process_and_plot_solution].
  repeat split; assumption || reflexivity.
Qed.

Lemma X21_plotted_series_witness :
  exists done series,
    main config_two_samples succeeding_solve_ivp no_degenerate_perturbations flat_spline
    = (done, inr series)
    /\ done = [Grid; SymbolicDerivation; SchwarzianInit; Interpolation; Integration;
               Reconstruction]
    /\ linspace (t_start config_two_samples) (t_end config_two_samples)
                (N config_two_samples) = inr (plot_t_np series)
    /\ exists S0_spline initial_conditions t0 t1 sol,
         first (plot_t_np series) = Some t0
         /\ last_elt (plot_t_np series) = Some t1
         /\ succeeding_solve_ivp (equations_of_motion config_two_samples S0_spline)
                                 (t0, t1) initial_conditions "Radau"%string
                                 (plot_t_np series) 1e-8 1e-8 = inr sol
         /\ success sol = true
         /\ plot_f_evolved series = row sol 0
         /\ plot_f_prime_evolved series = row sol 1
         /\ plot_phi_evolved series = row sol 3.
Proof.
  destruct (main_two_samples_completes no_degenerate_perturbations flat_spline)
    as (series & Hrun & _).
  exists [Grid; SymbolicDerivation; SchwarzianInit; Interpolation; Integration;
          Reconstruction], series.
  split; [exact Hrun|].
  exact (X21_plotted_series_come_from_a_successful_run config_two_samples
           succeeding_solve_ivp no_degenerate_perturbations flat_spline _ series Hrun).
Defined.

Lemma CubicSpline_refuses
    (natural_cubic_spline : list R -> list R -> R -> R) (x : list R) (y : list npfloat) :
  (List.length x < 2)%nat \/ strictly_increasing x = false ->
  CubicSpline natural_cubic_spline x y = inl (ValueError "CubicSpline").
Proof.
  intros Hbad. unfold CubicSpline.
  destruct (all_finite y) as [ys|]; [|reflexivity].
  destruct Hbad as [Hshort|Hdesc].
  - destruct (Nat.leb_spec 2 (List.length x)) as [Hge|_]; [lia | reflexivity].
  - rewrite Hdesc, andb_false_r. reflexivity.
Qed.

(** The run of [main] on a grid that is too short or not increasing. *)
Lemma main_invalid_grid
    (config : Config)
    (solve_ivp : (R -> state -> deriv) -> R * R -> state -> string -> list R -> R -> R
                 -> result OdeResult)
    (degenerate_perturbations : list R -> R -> result perturbations)
    (natural_cubic_spline : list R -> list R -> R -> R) :
  t_end config <= t_start config \/ (N config <= 1)%Z ->
  exists done e,
    main config solve_ivp degenerate_perturbations natural_cubic_spline = (done, inl e)
    /\ ~ In Interpolation done
    /\ ~ In Integration done
    /\ ~ In Reconstruction done.
Proof.
  intros Hbad. unfold main.
  destruct (Z.ltb_spec (N config) 0) as [Hneg|Hnn].
  { unfold linspace. destruct (Z.ltb_spec (N config) 0); [|lia].
    exists [], (ValueError "linspace"). cbn [call bind In]. tauto. }
  rewrite linspace_samples by exact Hnn.
  set (step := (t_end config - t_start config) / INR (Z.to_nat (N config) - 1)).
  set (g := fun i : nat => t_start config + INR i * step).
  set (t_np := map g (seq 0 (Z.to_nat (N config)))).
  assert (Hgrid : (List.length t_np < 2)%nat \/ strictly_increasing t_np = false).
  { destruct (Z.to_nat (N config)) as [|[|m]] eqn:Hn.
    - left. unfold t_np. cbn [seq map List.length]. lia.
    - left. unfold t_np. cbn [seq map List.length]. lia.
    - right. destruct Hbad as [Hrev|HN]; [|lia].
      unfold t_np. apply strictly_increasing_descent.
      unfold g. change (INR 0) with 0. change (INR 1) with 1.
      assert (Hstep : step <= 0).
      { unfold step. replace (S (S m) - 1)%nat with (S m) by lia.
        assert (0 < INR (S m)) by (apply lt_0_INR; lia).
        unfold Rdiv. rewrite <- (Rmult_0_l (/ INR (S m))).
        apply Rmult_le_compat_r; [left; apply Rinv_0_lt_compat; assumption | lra]. }
      lra. }
  cbn [call bind app].
  destruct (compute_initial_perturbations degenerate_perturbations t_np (delta config))
    as [e|[[[[[phi_initial phi_prime] phi_double_prime] phi_triple_prime]
             dilaton_initial] dilaton_prime_initial]];
    cbn [call bind app].
  { exists [Grid], e. cbn [In]. split; [reflexivity|].
    repeat split; intros [H|[]]; discriminate H. }
  destruct (compute_initial_schwarzian config t_np phi_initial phi_prime
                                       phi_double_prime phi_triple_prime)
    as [[[f_initial f_prime_initial] f_double_prime_initial] S_initial].
  cbn [call bind app].
  rewrite (CubicSpline_refuses natural_cubic_spline t_np S_initial Hgrid).
  cbn [call bind app].
  exists [Grid; SymbolicDerivation; SchwarzianInit], (ValueError "CubicSpline").
  cbn [In]. split; [reflexivity|].
  repeat split; intros [H|[H|[H|[]]]]; discriminate H.
Qed.

(** C4, amended: the program has no configuration check of its own, but for
    every configuration with [t_end <= t_start] or a non-positive grid size
    the run of [main] ends with an exception before the interpolation stage
    has returned, so before any solve begins: the integrator is never called
    and nothing is reconstructed.  The exception is the one of a library
    call, and the run is not stopped before any computation: a negative grid
    size is refused by [np.linspace] at once, grid size 0 raises
    [IndexError] once the empty grid is built, and exchanged time bounds (at
    least two samples, non-zero [delta]) are refused by [CubicSpline] after
    the grid, the initial perturbations and the initial Schwarzian profile
    have been computed. *)
Theorem C4_invalid_configuration_never_integrated
    (config : Config)
    (solve_ivp : (R -> state -> deriv) -> R * R -> state -> string -> list R -> R -> R
                 -> result OdeResult)
    (degenerate_perturbations : list R -> R -> result perturbations)
    (natural_cubic_spline : list R -> list R -> R -> R) :
  invalid_configuration config ->
  (exists done e,
      main config solve_ivp degenerate_perturbations natural_cubic_spline = (done, inl e)
      /\ ~ In Interpolation done
      /\ ~ In Integration done
      /\ ~ In Reconstruction done)
  /\ ((N config < 0)%Z ->
        main config solve_ivp degenerate_perturbations natural_cubic_spline
        = ([], inl (ValueError "linspace")))
  /\ (N config = 0%Z ->
        main config solve_ivp degenerate_perturbations natural_cubic_spline
        = ([Grid], inl IndexError))
  /\ ((2 <= N config)%Z -> t_end config < t_start config -> delta config <> 0 ->
        main config solve_ivp degenerate_perturbations natural_cubic_spline
        = ([Grid; SymbolicDerivation; SchwarzianInit], inl (ValueError "CubicSpline"))).
Proof.
  intros Hinvalid. split; [|split; [|split]].
  - apply main_invalid_grid.
    destruct Hinvalid as [Hrev|HN]; [left; exact Hrev | right; lia].
  - apply main_negative_grid_size.
  - apply main_empty_grid.
  - apply main_reversed_grid.
Qed.

Lemma C4_invalid_configuration_never_integrated_witness :
  invalid_configuration config_reversed_bounds
  /\ exists done e,
       main config_reversed_bounds succeeding_solve_ivp no_degenerate_perturbations
            flat_spline = (done, inl e)
       /\ ~ In Interpolation done
       /\ ~ In Integration done
       /\ ~ In Reconstruction done.
Proof.
  assert (H : invalid_configuration config_reversed_bounds)
    by (left; cbn [t_end t_start config_reversed_bounds]; lra).
  split; [exact H|].
  exact (proj1 (C4_invalid_configuration_never_integrated config_reversed_bounds
                  succeeding_solve_ivp no_degenerate_perturbations flat_spline H)).
Defined.

(** X22: the integrator is never called on an invalid grid.  For every
    configuration with [t_end <= t_start] or fewer than two samples, the run
    of [main] ends with an exception before the interpolation stage
    returns; neither the integration nor the reconstruction takes place. *)
Theorem X22_invalid_grid_is_never_integrated
    (config : Config)
    (solve_ivp : (R -> state -> deriv) -> R * R -> state -> string -> list R -> R -> R
                 -> result OdeResult)
    (degenerate_perturbations : list R -> R -> result perturbations)
    (natural_cubic_spline : list R -> list R -> R -> R) :
  t_end config <= t_start config \/ (N config <= 1)%Z ->
  exists done e,
    main config solve_ivp degenerate_perturbations natural_cubic_spline = (done, inl e)
    /\ ~ In Interpolation done
    /\ ~ In Integration done
    /\ ~ In Reconstruction done.
Proof.
  exact (main_invalid_grid config solve_ivp degenerate_perturbations natural_cubic_spline).
Qed.

Lemma X22_invalid_grid_witness :
  (t_end config_reversed_bounds <= t_start config_reversed_bounds
   \/ (N config_reversed_bounds <= 1)%Z)
  /\ exists done e,
       main config_reversed_bounds succeeding_solve_ivp no_degenerate_perturbations
            flat_spline = (done, inl e)
       /\ ~ In Interpolation done
       /\ ~ In Integration done
       /\ ~ In Reconstruction done.
Proof.
  assert (H : t_end config_reversed_bounds <= t_start config_reversed_bounds
              \/ (N config_reversed_bounds <= 1)%Z)
    by (left; cbn [t_end t_start config_reversed_bounds]; lra).
  split; [exact H|].
  exact (X22_invalid_grid_is_never_integrated config_reversed_bounds succeeding_solve_ivp
           no_degenerate_perturbations flat_spline H).
Defined.

